(** * Movie quiz game: the quiz page (client) and the quiz session engine

    The development has two parts.

    - [Client] embeds the React component [QuizPage]: its state variables,
      the two [window] globals it uses, its asynchronous handlers ([start],
      [handleAnswerSelect], [completeQuiz], [handleTimeout], [nextQuestion]),
      the countdown effect and the render function.  An asynchronous handler
      is a [Task]: a sequence of state-setter calls that may suspend on a
      [fetch]; what follows the [await] is the continuation stored in the
      task.  A handler reads the state variables of the render it was
      created in (its closure) and writes through the setters.

    - [Engine] is the quiz session engine (the Flask backend), whose code is
      not part of the sources at hand; it is modelled from the written
      specification. *)

From stdpp Require Import base option list strings gmap infinite.
From Stdlib Require Import ZArith Lia.

Open Scope Z_scope.

Module Client.

(** ** Payloads exchanged with the API *)

Record QuestionPayload := {
  q_id : string;
  q_question : string;
  q_options : list string;
  q_difficulty : option string;
  q_number : Z;
  q_total : Z
}.

Record StartResponse := {
  sr_session_id : string;
  sr_question : QuestionPayload;
  sr_score : Z;
  sr_questions_remaining : Z
}.

Record AnswerResponse := {
  correct : bool;
  correct_index : Z;
  ar_score : Z;
  quiz_complete : bool;
  next_question : option QuestionPayload;
  difficulty_level : option Z;
  questions_remaining : option Z
}.

Record UserData := {
  user_id : string;
  email : string;
  preferred_genre : string
}.

#[global] Instance QuestionPayload_eq_dec : EqDecision QuestionPayload.
Proof. solve_decision. Defined.

(** The requests the page sends; the arguments are the fields of the JSON
    body, in the order of the source. *)
Inductive Request :=
| PostStart (total_questions : Z) (user_id : option string)
| PostAnswer (session_id question_id : string) (answer_index time_left : Z)
| PostComplete (session_id : string)
    (final_score correct_answers total_questions : Z).

#[global] Instance Request_eq_dec : EqDecision Request.
Proof. solve_decision. Defined.

(** JavaScript truthiness of the values the component tests. *)
Definition truthy_string (s : string) : bool := negb (String.eqb s EmptyString).

Definition truthy_number (n : Z) : bool := negb (n =? 0).

(** ** Component state *)

(** The [useState] variables of [QuizPage]. *)
Record State := {
  sessionId : option string;
  question : option QuestionPayload;
  selectedAnswer : option Z;
  score : Z;
  timeLeft : Z;
  isAnswered : bool;
  quizComplete : bool;
  difficultyLevel : Z;
  loading : bool;
  isTimeout : bool
}.

(** The two properties the component keeps on [window]. *)
Record Window := {
  __nextQuestion : option QuestionPayload;
  __lastCorrectIndex : option Z
}.

Definition initialState : State := {|
  sessionId := None; question := None; selectedAnswer := None;
  score := 0; timeLeft := 30; isAnswered := false; quizComplete := false;
  difficultyLevel := 1; loading := false; isTimeout := false
|}.

Definition emptyWindow : Window :=
  {| __nextQuestion := None; __lastCorrectIndex := None |}.

(** A write: one of the ten state setters, or an assignment to one of the
    two [window] properties. *)
Inductive Act :=
| setSessionId (v : option string)
| setQuestion (v : option QuestionPayload)
| setSelectedAnswer (v : option Z)
| setScore (v : Z)
| setTimeLeft (v : Z)
| setIsAnswered (v : bool)
| setQuizComplete (v : bool)
| setDifficultyLevel (v : Z)
| setLoading (v : bool)
| setIsTimeout (v : bool)
| set__nextQuestion (v : QuestionPayload)
| set__lastCorrectIndex (v : Z).

Definition apply_state (a : Act) (s : State) : State :=
  match a with
  | setSessionId v =>
      {| sessionId := v; question := question s;
         selectedAnswer := selectedAnswer s; score := score s;
         timeLeft := timeLeft s; isAnswered := isAnswered s;
         quizComplete := quizComplete s; difficultyLevel := difficultyLevel s;
         loading := loading s; isTimeout := isTimeout s |}
  | setQuestion v =>
      {| sessionId := sessionId s; question := v;
         selectedAnswer := selectedAnswer s; score := score s;
         timeLeft := timeLeft s; isAnswered := isAnswered s;
         quizComplete := quizComplete s; difficultyLevel := difficultyLevel s;
         loading := loading s; isTimeout := isTimeout s |}
  | setSelectedAnswer v =>
      {| sessionId := sessionId s; question := question s;
         selectedAnswer := v; score := score s;
         timeLeft := timeLeft s; isAnswered := isAnswered s;
         quizComplete := quizComplete s; difficultyLevel := difficultyLevel s;
         loading := loading s; isTimeout := isTimeout s |}
  | setScore v =>
      {| sessionId := sessionId s; question := question s;
         selectedAnswer := selectedAnswer s; score := v;
         timeLeft := timeLeft s; isAnswered := isAnswered s;
         quizComplete := quizComplete s; difficultyLevel := difficultyLevel s;
         loading := loading s; isTimeout := isTimeout s |}
  | setTimeLeft v =>
      {| sessionId := sessionId s; question := question s;
         selectedAnswer := selectedAnswer s; score := score s;
         timeLeft := v; isAnswered := isAnswered s;
         quizComplete := quizComplete s; difficultyLevel := difficultyLevel s;
         loading := loading s; isTimeout := isTimeout s |}
  | setIsAnswered v =>
      {| sessionId := sessionId s; question := question s;
         selectedAnswer := selectedAnswer s; score := score s;
         timeLeft := timeLeft s; isAnswered := v;
         quizComplete := quizComplete s; difficultyLevel := difficultyLevel s;
         loading := loading s; isTimeout := isTimeout s |}
  | setQuizComplete v =>
      {| sessionId := sessionId s; question := question s;
         selectedAnswer := selectedAnswer s; score := score s;
         timeLeft := timeLeft s; isAnswered := isAnswered s;
         quizComplete := v; difficultyLevel := difficultyLevel s;
         loading := loading s; isTimeout := isTimeout s |}
  | setDifficultyLevel v =>
      {| sessionId := sessionId s; question := question s;
         selectedAnswer := selectedAnswer s; score := score s;
         timeLeft := timeLeft s; isAnswered := isAnswered s;
         quizComplete := quizComplete s; difficultyLevel := v;
         loading := loading s; isTimeout := isTimeout s |}
  | setLoading v =>
      {| sessionId := sessionId s; question := question s;
         selectedAnswer := selectedAnswer s; score := score s;
         timeLeft := timeLeft s; isAnswered := isAnswered s;
         quizComplete := quizComplete s; difficultyLevel := difficultyLevel s;
         loading := v; isTimeout := isTimeout s |}
  | setIsTimeout v =>
      {| sessionId := sessionId s; question := question s;
         selectedAnswer := selectedAnswer s; score := score s;
         timeLeft := timeLeft s; isAnswered := isAnswered s;
         quizComplete := quizComplete s; difficultyLevel := difficultyLevel s;
         loading := loading s; isTimeout := v |}
  | set__nextQuestion _ | set__lastCorrectIndex _ => s
  end.

Definition apply_window (a : Act) (g : Window) : Window :=
  match a with
  | set__nextQuestion v =>
      {| __nextQuestion := Some v; __lastCorrectIndex := __lastCorrectIndex g |}
  | set__lastCorrectIndex v =>
      {| __nextQuestion := __nextQuestion g; __lastCorrectIndex := Some v |}
  | _ => g
  end.

(** ** Asynchronous handlers as tasks *)

(** A task runs its writes up to the next [await fetch(...)], where it
    suspends with the request it sent and the code that follows.  The
    argument of the continuation is the parsed response; [None] stands for a
    rejected [fetch] or [res.json()], which the source handles in [catch]. *)
Inductive Task :=
| Ret
| Do (a : Act) (k : Task)
| FetchStart (req : Request) (k : option StartResponse -> Task)
| FetchAnswer (req : Request) (k : option AnswerResponse -> Task)
| FetchComplete (req : Request) (k : bool -> Task).

(** [t1 ;; t2]: run [t1] to its end ([await t1]), then [t2]. *)
Fixpoint seq (t1 t2 : Task) : Task :=
  match t1 with
  | Ret => t2
  | Do a k => Do a (seq k t2)
  | FetchStart req k => FetchStart req (fun r => seq (k r) t2)
  | FetchAnswer req k => FetchAnswer req (fun r => seq (k r) t2)
  | FetchComplete req k => FetchComplete req (fun r => seq (k r) t2)
  end.

Declare Scope task_scope.
Delimit Scope task_scope with task.
Bind Scope task_scope with Task.
Notation "a ;; k" := (Do a k%task)
  (at level 100, k at level 200, right associativity) : task_scope.
Open Scope task_scope.

(** [start], the body of the first effect.  [ud] is the [userData] prop. *)
Definition start_k (data : option StartResponse) : Task :=
  match data with
  | Some data =>
      setSessionId (Some (sr_session_id data)) ;;
      setQuestion (Some (sr_question data)) ;;
      setScore (sr_score data) ;;
      setTimeLeft 30 ;;
      setIsAnswered false ;;
      setIsTimeout false ;;
      setSelectedAnswer None ;;
      setLoading false ;;
      Ret
  | None => setLoading false ;; Ret
  end.

Definition requestBody_user_id (ud : option UserData) : option string :=
  match ud with
  | Some u => if truthy_string (user_id u) then Some (user_id u) else None
  | None => None
  end.

Definition start (ud : option UserData) : Task :=
  setLoading true ;;
  FetchStart (PostStart 10 (requestBody_user_id ud)) start_k.

(** [completeQuiz finalScore], in the closure [c]. *)
Definition completeQuiz (c : State) (finalScore : Z) : Task :=
  match sessionId c with
  | Some sid =>
      if negb (truthy_string sid) then Ret
      else
        let correctAnswers := 1 in
        let totalQuestions := 10 in
        FetchComplete (PostComplete sid finalScore correctAnswers totalQuestions)
          (fun _ => Ret)
  | None => Ret
  end.

(** What [handleAnswerSelect] does once the answer response is parsed. *)
Definition handleAnswerSelect_k (c : State) (data : option AnswerResponse)
  : Task :=
  match data with
  | Some data =>
      setScore (ar_score data) ;;
      let rest :=
        if quiz_complete data then
          setQuizComplete true ;;
          seq (completeQuiz c (ar_score data))
              (set__lastCorrectIndex (correct_index data) ;; Ret)
        else
          match next_question data with
          | Some nq =>
              set__nextQuestion nq ;;
              set__lastCorrectIndex (correct_index data) ;; Ret
          | None => set__lastCorrectIndex (correct_index data) ;; Ret
          end in
      match difficulty_level data with
      | Some d =>
          if truthy_number d then setDifficultyLevel d ;; rest else rest
      | None => rest
      end
  | None => Ret
  end.

Definition handleAnswerSelect (c : State) (answerIndex : Z) : Task :=
  match question c, sessionId c with
  | Some q, Some sid =>
      if isAnswered c || negb (truthy_string sid) then Ret
      else
        setSelectedAnswer (Some answerIndex) ;;
        setIsAnswered true ;;
        FetchAnswer (PostAnswer sid (q_id q) answerIndex (timeLeft c))
          (handleAnswerSelect_k c)
  | _, _ => Ret
  end.

(** What [handleTimeout] does once the answer response is parsed. *)
Definition handleTimeout_k (c : State) (data : option AnswerResponse)
  : Task :=
  match data with
  | Some data =>
      setScore (ar_score data) ;;
      let rest :=
        if quiz_complete data then
          setQuizComplete true ;;
          seq (completeQuiz c (ar_score data))
              (set__lastCorrectIndex (correct_index data) ;; Ret)
        else
          match next_question data with
          | Some nq =>
              set__nextQuestion nq ;;
              set__lastCorrectIndex (correct_index data) ;; Ret
          | None => set__lastCorrectIndex (correct_index data) ;; Ret
          end in
      match difficulty_level data with
      | Some d =>
          if truthy_number d then setDifficultyLevel d ;; rest else rest
      | None => rest
      end
  | None => Ret
  end.

Definition handleTimeout (c : State) : Task :=
  match question c, sessionId c with
  | Some q, Some sid =>
      if isAnswered c || negb (truthy_string sid) then Ret
      else
        setIsAnswered true ;;
        setSelectedAnswer None ;;
        setIsTimeout true ;;
        FetchAnswer (PostAnswer sid (q_id q) (-1) 0) (handleTimeout_k c)
  | _, _ => Ret
  end.

(** [nextQuestion] reads [window.__nextQuestion]. *)
Definition nextQuestion (g : Window) : Task :=
  match __nextQuestion g with
  | None => Ret
  | Some nextQ =>
      setQuestion (Some nextQ) ;;
      setSelectedAnswer None ;;
      setIsAnswered false ;;
      setIsTimeout false ;;
      setTimeLeft 30 ;;
      Ret
  end.

(** ** Running tasks: the component between two renders *)

(** A request in flight, with the code waiting for its response. *)
Inductive Pending :=
| PendStart (req : Request) (k : option StartResponse -> Task)
| PendAnswer (req : Request) (k : option AnswerResponse -> Task)
| PendComplete (req : Request) (k : bool -> Task).

Definition pending_request (p : Pending) : Request :=
  match p with
  | PendStart req _ | PendAnswer req _ | PendComplete req _ => req
  end.

(** Run a task up to its next [await]: the writes are applied in order (one
    batch, committed by the next render, as React 18 batches them in event
    handlers and after an [await] alike) and the task either ends or
    suspends on a request. *)
Fixpoint exec (t : Task) (s : State) (g : Window)
  : State * Window * option Pending :=
  match t with
  | Ret => (s, g, None)
  | Do a k => exec k (apply_state a s) (apply_window a g)
  | FetchStart req k => (s, g, Some (PendStart req k))
  | FetchAnswer req k => (s, g, Some (PendAnswer req k))
  | FetchComplete req k => (s, g, Some (PendComplete req k))
  end.

(** What arrives for a request in flight. *)
Inductive Response :=
| StartJson (r : option StartResponse)
| AnswerJson (r : option AnswerResponse)
| CompleteDone (ok : bool).

Definition resume (p : Pending) (r : Response) : option Task :=
  match p, r with
  | PendStart _ k, StartJson r => Some (k r)
  | PendAnswer _ k, AnswerJson r => Some (k r)
  | PendComplete _ k, CompleteDone ok => Some (k ok)
  | _, _ => None
  end.

#[global] Instance UserData_eq_dec : EqDecision UserData.
Proof. solve_decision. Defined.

(** The mounted component: the [userData] prop, the committed state, the
    [window] globals, the [setTimeout] armed by the countdown effect (with
    the [timeLeft] its callback captured) and the requests in flight. *)
Record World := {
  userData : option UserData;
  comp : State;
  win : Window;
  timer : option Z;
  inflight : list Pending
}.

Definition set_timer (t : option Z) (w : World) : World :=
  {| userData := userData w; comp := comp w; win := win w;
     timer := t; inflight := inflight w |}.

Definition set_comp (s : State) (w : World) : World :=
  {| userData := userData w; comp := s; win := win w;
     timer := timer w; inflight := inflight w |}.

Definition set_userData (ud : option UserData) (w : World) : World :=
  {| userData := ud; comp := comp w; win := win w;
     timer := timer w; inflight := inflight w |}.

(** Start a task (or resume one) in world [w]; the request it suspends on,
    if any, is sent. *)
Definition launch (t : Task) (w : World) : World * list Request :=
  let '(s, g, p) := exec t (comp w) (win w) in
  ({| userData := userData w; comp := s; win := g; timer := timer w;
      inflight := inflight w ++ option_list p |},
   pending_request <$> option_list p).

(** The dependency array of the countdown effect:
    [timeLeft, isAnswered, quizComplete, question].  React compares
    dependencies with [Object.is]; for the question object the comparison
    here is by content, which gives the same runs of the effect up to
    re-arming a timer that is armed already. *)
Definition deps_eqb (a b : State) : bool :=
  (timeLeft a =? timeLeft b) && Bool.eqb (isAnswered a) (isAnswered b)
  && Bool.eqb (quizComplete a) (quizComplete b)
  && bool_decide (question a = question b).

(** The body of the countdown effect, run in the closure [c]. *)
Definition ticking (c : State) : bool :=
  (0 <? timeLeft c) && negb (isAnswered c) && negb (quizComplete c).

Definition expired (c : State) : bool :=
  (timeLeft c =? 0) && negb (isAnswered c)
  && bool_decide (is_Some (question c)).

Definition countdown (c : State) (w : World) : World * list Request :=
  if ticking c then (set_timer (Some (timeLeft c)) w, [])
  else if expired c then launch (handleTimeout c) w
  else (w, []).

(** After a batch of writes the component renders again; when a dependency
    of the countdown effect changed since the render [prev], the cleanup
    ([clearTimeout]) and the effect run, and what the effect writes is
    rendered in turn. *)
Fixpoint render_effects (fuel : nat) (prev : State) (w : World)
  : World * list Request :=
  match fuel with
  | O => (w, [])
  | S fuel' =>
      let c := comp w in
      if deps_eqb prev c then (w, [])
      else
        let '(w1, r1) := countdown c (set_timer None w) in
        let '(w2, r2) := render_effects fuel' c w1 in
        (w2, r1 ++ r2)
  end.

(** Run a handler and the renders that follow it. *)
Definition handle (t : Task) (w : World) : World * list Request :=
  let '(w1, r1) := launch t w in
  let '(w2, r2) := render_effects 2 (comp w) w1 in
  (w2, r1 ++ r2).

(** First render: both effects run, in the order of the source. *)
Definition mount (ud : option UserData) : World * list Request :=
  let w0 := {| userData := ud; comp := initialState; win := emptyWindow;
               timer := None; inflight := [] |} in
  let '(w1, r1) := launch (start ud) w0 in
  let '(w2, r2) := countdown initialState w1 in
  let '(w3, r3) := render_effects 2 initialState w2 in
  (w3, r1 ++ r2 ++ r3).

(** What can happen to the mounted component. *)
Inductive Event :=
| EvUserData (ud : option UserData)
| EvTick
| EvClickOption (index : Z)
| EvClickNext
| EvResponse (n : nat) (r : Response).

Definition step (w : World) (e : Event) : World * list Request :=
  match e with
  | EvUserData ud =>
      if bool_decide (ud = userData w) then (w, [])
      else handle (start ud) (set_userData ud w)
  | EvTick =>
      match timer w with
      | Some t => handle (setTimeLeft (t - 1) ;; Ret) (set_timer None w)
      | None => (w, [])
      end
  | EvClickOption index => handle (handleAnswerSelect (comp w) index) w
  | EvClickNext => handle (nextQuestion (win w)) w
  | EvResponse n r =>
      match inflight w !! n with
      | Some p =>
          match resume p r with
          | Some t =>
              handle t
                {| userData := userData w; comp := comp w; win := win w;
                   timer := timer w; inflight := delete n (inflight w) |}
          | None => (w, [])
          end
      | None => (w, [])
      end
  end.

Fixpoint run (w : World) (es : list Event) : World * list Request :=
  match es with
  | [] => (w, [])
  | e :: es =>
      let '(w1, r1) := step w e in
      let '(w2, r2) := run w1 es in
      (w2, r1 ++ r2)
  end.

(** The component from its first render through the events [es]. *)
Definition session (ud : option UserData) (es : list Event)
  : World * list Request :=
  let '(w0, r0) := mount ud in
  let '(w, r) := run w0 es in
  (w, r0 ++ r).

(** ** Render *)

Inductive Variant := primary | success | warning.

Inductive NextControl := NoNext | NextButton | LoadingNext.

Inductive View :=
| LoadingView
| CompleteView (finalScore : Z)
| NoQuestionView
| QuestionView (q : QuestionPayload) (shownScore shownTime shownDiff : Z)
    (variants : list Variant) (disabled timeoutBanner : bool)
    (next : NextControl).

Definition option_variant (isAnswered : bool) (correctIndex selected : option Z)
    (index : Z) : Variant :=
  match correctIndex with
  | Some ci =>
      if isAnswered then
        if index =? ci then success
        else if bool_decide (Some index = selected) then warning
        else primary
      else primary
  | None => primary
  end.

Definition render (s : State) (g : Window) : View :=
  if loading s then LoadingView
  else if quizComplete s then CompleteView (score s)
  else
    match question s with
    | None => NoQuestionView
    | Some q =>
        let correctIndex := __lastCorrectIndex g in
        QuestionView q (score s) (timeLeft s) (difficultyLevel s)
          (imap (fun index _ =>
                   option_variant (isAnswered s) correctIndex
                     (selectedAnswer s) (Z.of_nat index))
                (q_options q))
          (isAnswered s) (isTimeout s)
          (if isAnswered s && negb (quizComplete s) then
             if bool_decide (is_Some (__nextQuestion g)) then NextButton
             else LoadingNext
           else NoNext)
    end.

(** The question on screen, if any. *)
Definition displayed (s : State) : option QuestionPayload :=
  if loading s || quizComplete s then None else question s.


(** ** Summaries used to state what the handlers do *)

(** The guard shared by [handleAnswerSelect] and [handleTimeout]:
    [if (isAnswered || !question || !sessionId) return]. When it lets the
    handler through, the handler holds a session id and a question. *)
Definition submit_target (c : State) : option (string * QuestionPayload) :=
  match question c, sessionId c with
  | Some q, Some sid =>
      if isAnswered c || negb (truthy_string sid) then None else Some (sid, q)
  | _, _ => None
  end.

(** The writes of [handleTimeout] before its request. *)
Definition timed_out (s : State) : State :=
  apply_state (setIsTimeout true)
    (apply_state (setSelectedAnswer None) (apply_state (setIsAnswered true) s)).

(** The writes of [handleAnswerSelect] before its request. *)
Definition selected (answerIndex : Z) (s : State) : State :=
  apply_state (setIsAnswered true)
    (apply_state (setSelectedAnswer (Some answerIndex)) s).

(** The renders after a batch, without the recursion: at most one call of
    [handleTimeout] happens, since it sets [isAnswered]. *)
Definition settle (prev : State) (w : World) : World * list Request :=
  let c := comp w in
  if deps_eqb prev c then (w, [])
  else if ticking c then (set_timer (Some (timeLeft c)) w, [])
  else if expired c then
    match submit_target c with
    | Some (sid, q) =>
        ({| userData := userData w; comp := timed_out c; win := win w;
            timer := None;
            inflight := inflight w ++
              [PendAnswer (PostAnswer sid (q_id q) (-1) 0)
                 (handleTimeout_k c)] |},
         [PostAnswer sid (q_id q) (-1) 0])
    | None => (set_timer None w, [])
    end
  else (set_timer None w, []).

(** The world a handler leaves for the renders that follow it. *)
Definition batched (t : Task) (w : World) : World :=
  let r := exec t (comp w) (win w) in
  {| userData := userData w; comp := r.1.1; win := r.1.2;
     timer := timer w; inflight := inflight w ++ option_list r.2 |}.

(** The state writes of the code after [await res.json()] in
    [handleAnswerSelect] and [handleTimeout]. *)
Definition graded (data : AnswerResponse) (s : State) : State :=
  let s1 := apply_state (setScore (ar_score data)) s in
  let s2 :=
    match difficulty_level data with
    | Some d =>
        if truthy_number d then apply_state (setDifficultyLevel d) s1 else s1
    | None => s1
    end in
  if quiz_complete data then apply_state (setQuizComplete true) s2 else s2.

(** The [window] writes of that code for a response that does not complete
    the quiz. *)
Definition stored (data : AnswerResponse) (g : Window) : Window :=
  apply_window (set__lastCorrectIndex (correct_index data))
    match next_question data with
    | Some nq => apply_window (set__nextQuestion nq) g
    | None => g
    end.

(** The requests of a list that go to [/api/quiz/complete], and those that
    go to [/api/quiz/answer]. *)
Definition is_complete (r : Request) : bool :=
  match r with PostComplete _ _ _ _ => true | _ => false end.

Definition is_answer (r : Request) : bool :=
  match r with PostAnswer _ _ _ _ => true | _ => false end.

Definition completes (rs : list Request) : list Request :=
  filter (fun r => is_complete r = true) rs.

Definition answers (rs : list Request) : list Request :=
  filter (fun r => is_answer r = true) rs.

(** The completion request an event is expected to trigger: the one that
    follows an answer response with [quiz_complete], for the session of the
    answer request it responds to. *)
Definition completion_of (w : World) (e : Event) : list Request :=
  match e with
  | EvResponse n (AnswerJson (Some data)) =>
      match inflight w !! n with
      | Some (PendAnswer (PostAnswer sid _ _ _) _) =>
          if quiz_complete data
          then [PostComplete sid (ar_score data) 1 10] else []
      | _ => []
      end
  | _ => []
  end.

(** The constants [completeQuiz] puts in the body of its request. *)
Definition complete_constants (r : Request) : Prop :=
  match r with
  | PostComplete _ _ correct_answers total_questions =>
      correct_answers = 1 /\ total_questions = 10
  | _ => True
  end.

(** The difficulty level the page shows after an event: that of an answer
    response when the response has a truthy [difficulty_level], the level
    shown before otherwise. *)
Definition level_after (w : World) (e : Event) : Z :=
  match e with
  | EvResponse n (AnswerJson (Some data)) =>
      match inflight w !! n, difficulty_level data with
      | Some (PendAnswer _ _), Some d =>
          if truthy_number d then d else difficultyLevel (comp w)
      | _, _ => difficultyLevel (comp w)
      end
  | _ => difficultyLevel (comp w)
  end.

(** What one event may send to /api/quiz/answer, and what it does to the
    answered flag. *)
Definition one_submission (w : World) (out : World * list Request) : Prop :=
  (isAnswered (comp w) = true ->
   answers out.2 = [] /\ isAnswered (comp out.1) = true)
  /\ (length (answers out.2) <= 1)%nat
  /\ (answers out.2 <> [] -> isAnswered (comp out.1) = true).

(** The requests in flight of a mounted component are those of its own
    handlers. *)
Inductive pending_ok : Pending -> Prop :=
| ok_start uid :
    pending_ok (PendStart (PostStart 10 uid) start_k)
| ok_select c sid q answerIndex :
    submit_target c = Some (sid, q) ->
    pending_ok (PendAnswer (PostAnswer sid (q_id q) answerIndex (timeLeft c))
                  (handleAnswerSelect_k c))
| ok_timeout c sid q :
    submit_target c = Some (sid, q) ->
    pending_ok (PendAnswer (PostAnswer sid (q_id q) (-1) 0)
                  (handleTimeout_k c))
| ok_complete sid finalScore ci :
    pending_ok (PendComplete (PostComplete sid finalScore 1 10)
                  (fun _ => set__lastCorrectIndex ci ;; Ret)).

(** The timer is armed exactly while the countdown runs, with the current
    [timeLeft] in its callback. *)
Definition timer_ok (w : World) : Prop :=
  timer w = if ticking (comp w) then Some (timeLeft (comp w)) else None.

Definition Inv (w : World) : Prop :=
  timer_ok w /\ Forall pending_ok (inflight w).

(** The tasks a mounted component runs. *)
Inductive handler_task : Task -> Prop :=
| ht_start ud : handler_task (start ud)
| ht_tick t : handler_task (setTimeLeft t ;; Ret)
| ht_select c answerIndex : handler_task (handleAnswerSelect c answerIndex)
| ht_timeout c : handler_task (handleTimeout c)
| ht_next g : handler_task (nextQuestion g)
| ht_resume p r t : pending_ok p -> resume p r = Some t -> handler_task t.

(** Events that show a question: the next-question click and the arrival of
    a start response. *)
Definition shows_question (e : Event) : bool :=
  match e with
  | EvClickNext => true
  | EvResponse _ (StartJson (Some _)) => true
  | _ => false
  end.

(** ** A sample run *)

Definition sample_q1 : QuestionPayload :=
  {| q_id := "q1"; q_question := "Who directed Jaws?";
     q_options := ["Lucas"; "Scott"; "Spielberg"; "Cameron"]%string;
     q_difficulty := Some "easy"%string; q_number := 1; q_total := 2 |}.

Definition sample_q2 : QuestionPayload :=
  {| q_id := "q2"; q_question := "Which year did Alien come out?";
     q_options := ["1977"; "1979"; "1982"; "1986"]%string;
     q_difficulty := None; q_number := 2; q_total := 2 |}.

Definition sample_start : StartResponse :=
  {| sr_session_id := "s1"; sr_question := sample_q1; sr_score := 0;
     sr_questions_remaining := 2 |}.

Definition sample_answer1 : AnswerResponse :=
  {| correct := true; correct_index := 2; ar_score := 30;
     quiz_complete := false; next_question := Some sample_q2;
     difficulty_level := Some 2; questions_remaining := Some 1 |}.

Definition sample_answer2 : AnswerResponse :=
  {| correct := false; correct_index := 1; ar_score := 30;
     quiz_complete := true; next_question := None;
     difficulty_level := Some 0; questions_remaining := Some 0 |}.

(** The start response arrives, the user picks option 2 of the first
    question, the answer response arrives, the user clicks "Next
    Question". *)
Definition sample_first_question : list Event :=
  [EvResponse 0 (StartJson (Some sample_start)); EvTick; EvClickOption 2;
   EvResponse 0 (AnswerJson (Some sample_answer1)); EvClickNext].

(** Then the second question runs into its timeout. *)
Definition sample_second_question : list Event :=
  sample_first_question ++ repeat EvTick 30.

(** Its answer response completes the quiz. *)
Definition sample_quiz : list Event :=
  sample_second_question ++ [EvResponse 0 (AnswerJson (Some sample_answer2))].

(** ** The countdown, more closely *)

(** The countdown is between 0 and 30, and it rests at 0 with the answered
    flag down only while the guard of the handlers is closed (no question
    or no session id). *)
Definition clock_ok (s : State) : Prop :=
  0 <= timeLeft s <= 30
  /\ (timeLeft s = 0 -> isAnswered s = false -> submit_target s = None).

(** What the batch of an event can do to the countdown and to the guard of
    the handlers, from state [c] to state [s], sending [reqs]: leave them
    alone, put the countdown back at 30, take one second off, or submit the
    option clicked. *)
Inductive batch_kind (e : Event) (c s : State) (reqs : list Request) : Prop :=
| bk_plain :
    timeLeft s = timeLeft c -> isAnswered s = isAnswered c ->
    submit_target s = submit_target c -> answers reqs = [] ->
    batch_kind e c s reqs
| bk_reset :
    timeLeft s = 30 -> answers reqs = [] -> batch_kind e c s reqs
| bk_ticked :
    e = EvTick -> 0 < timeLeft c ->
    s = apply_state (setTimeLeft (timeLeft c - 1)) c -> reqs = [] ->
    batch_kind e c s reqs
| bk_clicked index sid q :
    e = EvClickOption index -> submit_target c = Some (sid, q) ->
    s = selected index c ->
    reqs = [PostAnswer sid (q_id q) index (timeLeft c)] ->
    batch_kind e c s reqs.

(** The arrival, or the failure, of a start response. *)
Definition is_start_response (e : Event) : bool :=
  match e with
  | EvResponse _ (StartJson _) => true
  | _ => false
  end.

(** Drop a request in flight, as [step] does when its response arrives. *)
Definition settled (n : nat) (w : World) : World :=
  {| userData := userData w; comp := comp w; win := win w;
     timer := timer w; inflight := delete n (inflight w) |}.

End Client.

(** * The quiz session engine *)

Module Engine.

(** Modelled from the spec: the quiz session engine (the backend behind
    /api/quiz/start and /api/quiz/answer), of which the sources hold only
    the client.  The data model, [start] and [submitAnswer] follow sections
    3 and 4.1 of the specification; what the specification leaves to the
    implementer is a field of [Config]. *)

Inductive Error :=
| InvalidConfig
| SessionNotFound
| QuestionMismatch
| UpstreamUnavailable.

Inductive Result (A : Type) :=
| Ok (a : A)
| Err (e : Error).
Arguments Ok {A} a.
Arguments Err {A} e.

#[global] Instance Result_ret : MRet Result := fun _ a => Ok a.
#[global] Instance Result_bind : MBind Result := fun _ _ f r =>
  match r with Ok a => f a | Err e => Err e end.

Definition require (b : bool) (e : Error) : Result unit :=
  if b then Ok () else Err e.

Definition from_option {A} (o : option A) (e : Error) : Result A :=
  match o with Some a => Ok a | None => Err e end.

(** Modelled from the spec: a question as the engine holds it. *)
Record Question := {
  q_id : string;
  prompt : string;
  options : list string;
  correct_index : Z;
  difficulty_tag : string
}.

(** Modelled from the spec: the sanitized view sent to the client, without
    [correct_index]. *)
Record SanitizedQuestion := {
  sq_id : string;
  sq_prompt : string;
  sq_options : list string;
  sq_difficulty_tag : string;
  sq_number : nat;
  sq_total : nat
}.

Definition sanitize (q : Question) (index total : nat) : SanitizedQuestion :=
  {| sq_id := q_id q; sq_prompt := prompt q; sq_options := options q;
     sq_difficulty_tag := difficulty_tag q;
     sq_number := S index; sq_total := total |}.

Inductive Status := ACTIVE | COMPLETE.

(** Modelled from the spec: one entry of the per-question log. *)
Record LogEntry := {
  chosen : Z;
  was_correct : bool;
  time_remaining : Z
}.

(** Modelled from the spec: the session record of section 3. *)
Record QuizSession := {
  session_id : string;
  user_id : option string;
  questions : list Question;
  current_index : nat;
  score : Z;
  difficulty_level : Z;
  log : list LogEntry;
  status : Status
}.

(** Modelled from the spec: what the specification leaves open.  The points
    of a correct answer follow its example,
    [base_points * difficulty_level + time_left_bonus]; the difficulty level
    moves in [1, max_level] after runs of [up_run] correct and [down_run]
    incorrect answers; [question_source] is the external question bank. *)
Record Config := {
  base_points : Z;
  time_left_bonus : Z -> Z;
  max_level : Z;
  up_run : nat;
  down_run : nat;
  question_source : option string -> nat -> list Question
}.

Definition TIMEOUT_SENTINEL : Z := -1.

Definition starting_level : Z := 1.

(** A question whose [correct_index] points into its options. *)
Definition question_ok (q : Question) : Prop :=
  0 <= correct_index q < Z.of_nat (length (options q)).

(** Modelled from the spec: the requirements of the specification on the
    open parts: positive base points, a time bonus that is never negative
    and grows with the time left, a level range that holds the starting
    level, runs of at least one answer, and a question source that returns
    as many well-formed questions as it is asked for. *)
Record config_ok (cfg : Config) : Prop := {
  base_points_pos : 0 < base_points cfg;
  bonus_nonneg : forall t, 0 <= time_left_bonus cfg t;
  bonus_mono : forall t t', t <= t' ->
    time_left_bonus cfg t <= time_left_bonus cfg t';
  max_level_ok : starting_level <= max_level cfg;
  up_run_pos : (0 < up_run cfg)%nat;
  down_run_pos : (0 < down_run cfg)%nat;
  source_length : forall u n, length (question_source cfg u n) = n;
  source_ok : forall u n, Forall question_ok (question_source cfg u n)
}.

(** Modelled from the spec: points of a correct answer. *)
Definition points (cfg : Config) (time_left level : Z) : Z :=
  base_points cfg * level + time_left_bonus cfg time_left.

(** Modelled from the spec: grading.  The timeout sentinel is never
    correct; any other index is correct when it is the question's. *)
Definition grade (q : Question) (answer_index : Z) : bool :=
  if answer_index =? TIMEOUT_SENTINEL then false
  else answer_index =? correct_index q.

(** Length of the run of answers graded [b] that ends the log. *)
Fixpoint run_length (b : bool) (rev_log : list LogEntry) : nat :=
  match rev_log with
  | e :: rest =>
      if Bool.eqb (was_correct e) b then S (run_length b rest) else O
  | [] => O
  end.

Definition clamp (lo hi x : Z) : Z := Z.max lo (Z.min hi x).

(** Modelled from the spec: difficulty adaptation, after the answer is in
    the log.  The level goes up when the closing run of correct answers
    reaches a multiple of [up_run], down when the closing run of incorrect
    answers reaches a multiple of [down_run], and is clamped. *)
Definition adapt (cfg : Config) (level : Z) (log : list LogEntry) : Z :=
  let ups := run_length true (rev log) in
  let downs := run_length false (rev log) in
  if (0 <? ups)%nat && (ups mod up_run cfg =? 0)%nat then
    clamp starting_level (max_level cfg) (level + 1)
  else if (0 <? downs)%nat && (downs mod down_run cfg =? 0)%nat then
    clamp starting_level (max_level cfg) (level - 1)
  else level.

Record StartResult := {
  sr_session_id : string;
  sr_first_question : SanitizedQuestion;
  sr_score : Z;
  sr_questions_remaining : nat
}.

Record AnswerResult := {
  ar_correct : bool;
  ar_correct_index : Z;
  ar_score : Z;
  ar_quiz_complete : bool;
  ar_next_question : option SanitizedQuestion;
  ar_difficulty_level : Z;
  ar_questions_remaining : nat
}.

(** Modelled from the spec: [start].  The session store maps session ids to
    session records; the id of a new session is one the store does not
    hold. *)
Definition start (cfg : Config) (store : gmap string QuizSession)
    (user_id : option string) (total_questions : Z)
  : Result (gmap string QuizSession * StartResult) :=
  require (0 <? total_questions) InvalidConfig;;
  let qs := question_source cfg user_id (Z.to_nat total_questions) in
  first ← from_option (head qs) UpstreamUnavailable;
  let sid := fresh (dom store) in
  let session :=
    {| session_id := sid; user_id := user_id; questions := qs;
       current_index := 0; score := 0; difficulty_level := starting_level;
       log := []; status := ACTIVE |} in
  mret (<[sid := session]> store,
        {| sr_session_id := sid;
           sr_first_question := sanitize first 0 (length qs);
           sr_score := 0;
           sr_questions_remaining := length qs |}).

Definition is_active (s : QuizSession) : bool :=
  match status s with ACTIVE => true | COMPLETE => false end.

(** Modelled from the spec: the session after the current question is
    answered: score, log, difficulty level, position and status. *)
Definition record_answer (cfg : Config) (s : QuizSession) (correct : bool)
    (answer_index time_left : Z) : QuizSession :=
  let score' :=
    if correct then score s + points cfg time_left (difficulty_level s)
    else score s in
  let log' :=
    log s ++ [{| chosen := answer_index; was_correct := correct;
                 time_remaining := time_left |}] in
  let index' := S (current_index s) in
  {| session_id := session_id s; user_id := user_id s;
     questions := questions s; current_index := index'; score := score';
     difficulty_level := adapt cfg (difficulty_level s) log'; log := log';
     status := if (index' =? length (questions s))%nat
               then COMPLETE else ACTIVE |}.

(** Modelled from the spec: the response to an answer to question [q],
    from the session [s'] it leads to. *)
Definition answer_result (q : Question) (correct : bool) (s' : QuizSession)
  : AnswerResult :=
  let total := length (questions s') in
  let complete := negb (is_active s') in
  {| ar_correct := correct;
     ar_correct_index := correct_index q;
     ar_score := score s';
     ar_quiz_complete := complete;
     ar_next_question :=
       if complete then None
       else (fun nq => sanitize nq (current_index s') total)
              <$> questions s' !! current_index s';
     ar_difficulty_level := difficulty_level s';
     ar_questions_remaining := total - current_index s' |}.

(** Modelled from the spec: [submitAnswer]. *)
Definition submitAnswer (cfg : Config) (store : gmap string QuizSession)
    (sid question_id : string) (answer_index time_left : Z)
  : Result (gmap string QuizSession * AnswerResult) :=
  s ← from_option (store !! sid) SessionNotFound;
  require (is_active s) SessionNotFound;;
  q ← from_option (questions s !! current_index s) SessionNotFound;
  require (bool_decide (q_id q = question_id)) QuestionMismatch;;
  let correct := grade q answer_index in
  let s' := record_answer cfg s correct answer_index time_left in
  mret (<[sid := s']> store, answer_result q correct s').

(** ** Sequences of calls *)

Inductive Call :=
| CallStart (user_id : option string) (total_questions : Z)
| CallSubmit (sid question_id : string) (answer_index time_left : Z).

(** The store after a call; a call that fails leaves it as it was. *)
Definition apply_call (cfg : Config) (store : gmap string QuizSession)
    (c : Call) : gmap string QuizSession :=
  match c with
  | CallStart u n =>
      match start cfg store u n with Ok (store', _) => store' | Err _ => store end
  | CallSubmit sid qid a t =>
      match submitAnswer cfg store sid qid a t with
      | Ok (store', _) => store'
      | Err _ => store
      end
  end.

Definition apply_calls (cfg : Config) (store : gmap string QuizSession)
    (cs : list Call) : gmap string QuizSession :=
  foldl (apply_call cfg) store cs.

(** Whether a call is an answer submission for session [sid] that the
    engine accepts in [store]. *)
Definition accepted (cfg : Config) (store : gmap string QuizSession)
    (sid : string) (c : Call) : bool :=
  match c with
  | CallSubmit sid' qid a t =>
      bool_decide (sid' = sid)
      && match submitAnswer cfg store sid' qid a t with
         | Ok _ => true
         | Err _ => false
         end
  | CallStart _ _ => false
  end.

(** Number of accepted answer submissions for [sid] along a sequence of
    calls. *)
Fixpoint successes (cfg : Config) (store : gmap string QuizSession)
    (sid : string) (cs : list Call) : nat :=
  match cs with
  | [] => O
  | c :: cs =>
      (if accepted cfg store sid c then 1 else 0)%nat
      + successes cfg (apply_call cfg store c) sid cs
  end.

(** What every session the engine makes satisfies. *)
Record session_ok (cfg : Config) (s : QuizSession) : Prop := {
  level_range : starting_level <= difficulty_level s <= max_level cfg;
  index_range : (current_index s <= length (questions s))%nat;
  status_index :
    status s = COMPLETE <-> current_index s = length (questions s);
  questions_ok : Forall question_ok (questions s);
  score_nonneg : 0 <= score s
}.

Definition store_ok (cfg : Config) (store : gmap string QuizSession) : Prop :=
  map_Forall (fun _ s => session_ok cfg s) store.

(** A sample configuration: 10 points per level, one point per second
    left, levels 1 to 5, runs of two, and a bank of one question repeated. *)
Definition sample_question : Question :=
  {| q_id := "q"; prompt := "Who directed Jaws?";
     options := ["Lucas"; "Scott"; "Spielberg"; "Cameron"]%string;
     correct_index := 2; difficulty_tag := "easy" |}.

Definition numbered (i : nat) : Question :=
  {| q_id := String (Ascii.ascii_of_nat (48 + i)) EmptyString;
     prompt := prompt sample_question; options := options sample_question;
     correct_index := 2; difficulty_tag := "easy" |}.

Definition sample_config : Config :=
  {| base_points := 10;
     time_left_bonus := fun t => Z.max 0 t;
     max_level := 5; up_run := 2; down_run := 2;
     question_source := fun _ n => numbered <$> seq 0 n |}.

(** The session [start] makes for two questions in an empty store, and the
    answers a player gives to them: the right option with 20 seconds left,
    then a timeout. *)
Definition sample_session : QuizSession :=
  {| session_id := "0"; user_id := None;
     questions := question_source sample_config None 2;
     current_index := 0; score := 0; difficulty_level := starting_level;
     log := []; status := ACTIVE |}.

Definition sample_calls : list Call :=
  [CallSubmit "0" "0" 2 20; CallSubmit "0" "0" 2 20; CallSubmit "0" "1" (-1) 0].

End Engine.

(** * The application shell and the achievements of the profile page *)

Module App.
Import Client.

(** ** [Index]: login state and navigation *)

(** The [useState] variables of [Index]. *)
Record AppState := {
  currentPage : string;
  isLoggedIn : bool;
  appUserData : option UserData
}.

(** The item ["userData"] of [localStorage]: its text is empty, or does
    not parse as JSON, or parses to [null] or to a user record. *)
Inductive StoredItem :=
| EmptyText
| Unparsable
| Parsed (v : option UserData).

Record AppWorld := {
  app : AppState;
  storage : option StoredItem
}.

Definition initialApp : AppState :=
  {| currentPage := "login"; isLoggedIn := false; appUserData := None |}.

(** First render of [Index] and its effect: restore the stored user, or
    drop an item that does not parse. *)
Definition mountApp (stored : option StoredItem) : AppWorld :=
  match stored with
  | Some (Parsed parsedData) =>
      {| app := {| currentPage := "quiz"; isLoggedIn := true;
                   appUserData := parsedData |};
         storage := stored |}
  | Some Unparsable => {| app := initialApp; storage := None |}
  | Some EmptyText | None => {| app := initialApp; storage := stored |}
  end.

(** The user record in [localStorage], if there is one. *)
Definition stored_user (stored : option StoredItem)
  : option (option UserData) :=
  match stored with
  | Some (Parsed v) => Some v
  | _ => None
  end.

Definition handleLogin (loginUserData : UserData) (s : AppState) : AppState :=
  {| currentPage := "quiz"; isLoggedIn := true;
     appUserData := Some loginUserData |}.

Definition handleNavigation (page : string) (w : AppWorld) : AppWorld :=
  if String.eqb page "login" then
    {| app := {| currentPage := "login"; isLoggedIn := false;
                 appUserData := None |};
       storage := None |}
  else
    {| app := {| currentPage := page; isLoggedIn := isLoggedIn (app w);
                 appUserData := appUserData (app w) |};
       storage := storage w |}.

(** What the user can do: log in (the login page stores the record, then
    calls [onLogin]) and navigate (header buttons, logout, and the
    leaderboard button of the quiz page). *)
Inductive AppEvent :=
| LoginOk (data : UserData)
| Navigate (page : string).

Definition appStep (w : AppWorld) (e : AppEvent) : AppWorld :=
  match e with
  | LoginOk data =>
      {| app := handleLogin data (app w);
         storage := Some (Parsed (Some data)) |}
  | Navigate page => handleNavigation page w
  end.

(** The login page is what a logged-out user sees; the header and the
    pages, with their navigation, are there only when logged in. *)
Definition available (s : AppState) (e : AppEvent) : bool :=
  match e with
  | LoginOk _ => negb (isLoggedIn s)
  | Navigate _ => isLoggedIn s
  end.

Fixpoint appRun (w : AppWorld) (es : list AppEvent) : option AppWorld :=
  match es with
  | [] => Some w
  | e :: es =>
      if available (app w) e then appRun (appStep w e) es else None
  end.

Inductive PageView :=
| LoginPageView
| QuizPageView (userData : option UserData)
| LeaderboardPageView (userData : option UserData)
| ProfilePageView (userData : option UserData).

Definition renderPage (s : AppState) : PageView :=
  if String.eqb (currentPage s) "quiz" then QuizPageView (appUserData s)
  else if String.eqb (currentPage s) "leaderboard"
  then LeaderboardPageView (appUserData s)
  else if String.eqb (currentPage s) "profile"
  then ProfilePageView (appUserData s)
  else QuizPageView (appUserData s).

Definition renderApp (s : AppState) : PageView :=
  if negb (isLoggedIn s) then LoginPageView else renderPage s.

(** What holds of the application after any run. *)
Definition app_ok (w : AppWorld) : Prop :=
  stored_user (storage w)
  = (if isLoggedIn (app w) then Some (appUserData (app w)) else None)
  /\ (isLoggedIn (app w) = false ->
      currentPage (app w) = "login"%string /\ appUserData (app w) = None).

(** ** [ProfilePage]: achievements *)

(** The statistics of a profile that [generateAchievements] reads, for a
    profile that has them as integers. *)
Record ProfileStats := {
  quizzes_played : Z;
  longest_streak : Z;
  best_score : Z
}.

Record RemoteAchievement := {
  ach_id : string;
  ach_title : string;
  unlocked : bool;
  progress : Z;
  total : Z
}.

Definition generateAchievements (profile : ProfileStats)
  : list RemoteAchievement :=
  [ {| ach_id := "first_quiz"; ach_title := "First Steps";
       unlocked := 1 <=? quizzes_played profile;
       progress := Z.min (quizzes_played profile) 1; total := 1 |};
    {| ach_id := "quiz_master"; ach_title := "Quiz Master";
       unlocked := 10 <=? quizzes_played profile;
       progress := Z.min (quizzes_played profile) 10; total := 10 |};
    {| ach_id := "streak_warrior"; ach_title := "Streak Warrior";
       unlocked := 5 <=? longest_streak profile;
       progress := Z.min (longest_streak profile) 5; total := 5 |};
    {| ach_id := "high_scorer"; ach_title := "High Scorer";
       unlocked := 1000 <=? best_score profile;
       progress := Z.min (best_score profile) 1000; total := 1000 |} ].

End App.

(** * Facts about the quiz page *)

Module ClientFacts.
Import Client.

Lemma deps_eqb_refl c : deps_eqb c c = true.
Proof.
  unfold deps_eqb. rewrite Z.eqb_refl, !eqb_reflx. simpl.
  by apply bool_decide_eq_true.
Qed.

Lemma deps_eqb_true a b :
  deps_eqb a b = true ->
  timeLeft a = timeLeft b /\ isAnswered a = isAnswered b
  /\ quizComplete a = quizComplete b /\ question a = question b.
Proof.
  unfold deps_eqb. rewrite !andb_true_iff, Z.eqb_eq, bool_decide_eq_true.
  intros [[[? ?%eqb_prop] ?%eqb_prop] ?]. auto.
Qed.

Lemma exec_handleTimeout c s g :
  exec (handleTimeout c) s g =
  match submit_target c with
  | Some (sid, q) =>
      (timed_out s, g,
       Some (PendAnswer (PostAnswer sid (q_id q) (-1) 0) (handleTimeout_k c)))
  | None => (s, g, None)
  end.
Proof.
  unfold handleTimeout, submit_target.
  destruct (question c), (sessionId c); try reflexivity.
  destruct (isAnswered c || negb (truthy_string s0)); reflexivity.
Qed.

Lemma exec_handleAnswerSelect c i s g :
  exec (handleAnswerSelect c i) s g =
  match submit_target c with
  | Some (sid, q) =>
      (selected i s, g,
       Some (PendAnswer (PostAnswer sid (q_id q) i (timeLeft c))
               (handleAnswerSelect_k c)))
  | None => (s, g, None)
  end.
Proof.
  unfold handleAnswerSelect, submit_target.
  destruct (question c), (sessionId c); try reflexivity.
  destruct (isAnswered c || negb (truthy_string s0)); reflexivity.
Qed.

Lemma render_effects_settle n prev w :
  render_effects (S (S n)) prev w = settle prev w.
Proof.
  unfold settle. cbn [render_effects].
  destruct (deps_eqb prev (comp w)) eqn:Hd; [reflexivity|].
  unfold countdown. cbn [comp set_timer].
  destruct (ticking (comp w)) eqn:Ht.
  - cbn [comp]. by rewrite deps_eqb_refl.
  - destruct (expired (comp w)) eqn:He.
    + unfold launch. cbn [comp win set_timer]. rewrite exec_handleTimeout.
      destruct (submit_target (comp w)) as [[sid q]|] eqn:Htt.
      * cbn [comp option_list fmap list_fmap].
        assert (Hne : deps_eqb (comp w) (timed_out (comp w)) = false).
        { unfold expired in He. unfold deps_eqb, timed_out. cbn.
          destruct (isAnswered (comp w)); [|by rewrite !andb_false_r].
          by rewrite !andb_false_r in He. }
        rewrite Hne. unfold ticking, expired. cbn.
        rewrite !andb_false_r. cbn.
        destruct n; [reflexivity|].
        cbn. rewrite deps_eqb_refl. reflexivity.
      * cbn [comp option_list fmap list_fmap]. rewrite deps_eqb_refl.
        by rewrite app_nil_r.
    + cbn [comp]. by rewrite deps_eqb_refl.
Qed.

Lemma submit_target_Some c sid q :
  submit_target c = Some (sid, q) ->
  question c = Some q /\ sessionId c = Some sid
  /\ truthy_string sid = true /\ isAnswered c = false.
Proof.
  unfold submit_target. destruct (question c), (sessionId c); try discriminate.
  destruct (isAnswered c) eqn:Ha; [discriminate|].
  destruct (truthy_string s) eqn:Hs; [|discriminate].
  cbn. intros [= <- <-]. auto.
Qed.

Lemma handle_eq t w :
  handle t w =
  (fst (settle (comp w) (batched t w)),
   (pending_request <$> option_list (exec t (comp w) (win w)).2)
   ++ snd (settle (comp w) (batched t w))).
Proof.
  unfold handle, launch, batched.
  destruct (exec t (comp w) (win w)) as [[s g] p]. cbn [fst snd].
  rewrite render_effects_settle.
  match goal with |- context [settle ?a ?b] => by destruct (settle a b) end.
Qed.

(** The three ways the renders after a batch can go. *)
Lemma settle_cases prev w :
  (deps_eqb prev (comp w) = true /\ settle prev w = (w, []))
  \/ (deps_eqb prev (comp w) = false
      /\ submit_target (comp w) = None /\ ticking (comp w) = false
      /\ settle prev w = (set_timer None w, []))
  \/ (deps_eqb prev (comp w) = false
      /\ expired (comp w) = false
      /\ settle prev w =
         (set_timer (if ticking (comp w) then Some (timeLeft (comp w))
                     else None) w, []))
  \/ (exists sid q,
      deps_eqb prev (comp w) = false
      /\ ticking (comp w) = false /\ expired (comp w) = true
      /\ submit_target (comp w) = Some (sid, q)
      /\ settle prev w =
         ({| userData := userData w; comp := timed_out (comp w);
             win := win w; timer := None;
             inflight := inflight w ++
               [PendAnswer (PostAnswer sid (q_id q) (-1) 0)
                  (handleTimeout_k (comp w))] |},
          [PostAnswer sid (q_id q) (-1) 0])).
Proof.
  unfold settle.
  destruct (deps_eqb prev (comp w)); [by left|].
  destruct (ticking (comp w)) eqn:Ht.
  - right; right; left. split; [done|]. split; [|done].
    unfold ticking, expired in *. 
    destruct (timeLeft (comp w) =? 0) eqn:Hz; [|done].
    apply Z.eqb_eq in Hz. rewrite Hz in Ht. done.
  - destruct (expired (comp w)) eqn:He.
    + destruct (submit_target (comp w)) as [[sid q]|] eqn:Hs.
      * right; right; right. exists sid, q. done.
      * right; left. done.
    + right; right; left. done.
Qed.

Lemma exec_handleAnswerSelect_k c sid q data s g :
  submit_target c = Some (sid, q) ->
  exec (handleAnswerSelect_k c (Some data)) s g =
  if quiz_complete data then
    (graded data s, g,
     Some (PendComplete (PostComplete sid (ar_score data) 1 10)
             (fun _ => set__lastCorrectIndex (correct_index data) ;; Ret)))
  else (graded data s, stored data g, None).
Proof.
  intros (_ & Hs & Ht & _)%submit_target_Some.
  unfold handleAnswerSelect_k, graded, stored, completeQuiz.
  rewrite Hs, Ht.
  destruct (difficulty_level data) as [d|]; [destruct (truthy_number d)|];
    destruct (quiz_complete data); try reflexivity;
    destruct (next_question data); reflexivity.
Qed.

Lemma exec_handleTimeout_k c sid q data s g :
  submit_target c = Some (sid, q) ->
  exec (handleTimeout_k c (Some data)) s g =
  if quiz_complete data then
    (graded data s, g,
     Some (PendComplete (PostComplete sid (ar_score data) 1 10)
             (fun _ => set__lastCorrectIndex (correct_index data) ;; Ret)))
  else (graded data s, stored data g, None).
Proof.
  intros (_ & Hs & Ht & _)%submit_target_Some.
  unfold handleTimeout_k, graded, stored, completeQuiz.
  rewrite Hs, Ht.
  destruct (difficulty_level data) as [d|]; [destruct (truthy_number d)|];
    destruct (quiz_complete data); try reflexivity;
    destruct (next_question data); reflexivity.
Qed.

(** A task of the component suspends only on a request of the component. *)
Lemma exec_pending_ok t s g s' g' p :
  handler_task t -> exec t s g = (s', g', Some p) -> pending_ok p.
Proof.
  intros Ht. revert s g. destruct Ht as [ud|v|c i|c|g0|p0 r t Hp Hr]; intros s g.
  - cbn. intros [= _ _ <-]. constructor.
  - cbn. discriminate.
  - rewrite exec_handleAnswerSelect.
    destruct (submit_target c) as [[sid q]|] eqn:Hs; [|discriminate].
    intros [= _ _ <-]. by constructor.
  - rewrite exec_handleTimeout.
    destruct (submit_target c) as [[sid q]|] eqn:Hs; [|discriminate].
    intros [= _ _ <-]. by constructor.
  - unfold nextQuestion. destruct (__nextQuestion g0); cbn; discriminate.
  - destruct Hp as [uid|c sid q i Hs|c sid q Hs|sid fs ci];
      destruct r as [r|r|ok]; try discriminate Hr;
      injection Hr as <-.
    + destruct r; cbn; discriminate.
    + destruct r as [data|]; [|cbn; discriminate].
      rewrite (exec_handleAnswerSelect_k _ _ _ _ _ _ Hs).
      destruct (quiz_complete data); [|discriminate].
      intros [= _ _ <-]. constructor.
    + destruct r as [data|]; [|cbn; discriminate].
      rewrite (exec_handleTimeout_k _ _ _ _ _ _ Hs).
      destruct (quiz_complete data); [|discriminate].
      intros [= _ _ <-]. constructor.
    + cbn. discriminate.
Qed.

Lemma ticking_timed_out c : ticking (timed_out c) = false.
Proof. unfold ticking, timed_out. cbn. by rewrite andb_false_r. Qed.

Lemma settle_inv prev w :
  Forall pending_ok (inflight w) ->
  (deps_eqb prev (comp w) = true -> timer_ok w) ->
  Inv (fst (settle prev w)).
Proof.
  intros Hp Ht.
  destruct (settle_cases prev w)
    as [[Hd ->]|[(Hd & Hs & Hk & ->)|[(Hd & He & ->)|(sid & q & Hd & Hk & He & Hs & ->)]]];
    cbn [fst]; split; unfold timer_ok; cbn [timer comp inflight set_timer];
    try done.
  - by apply Ht.
  - by rewrite Hk.
  - by rewrite ticking_timed_out.
  - apply Forall_app. split; [done|]. repeat constructor. done.
Qed.

Lemma deps_eqb_ticking a b : deps_eqb a b = true -> ticking a = ticking b.
Proof.
  intros (Ht & Ha & Hq & _)%deps_eqb_true. unfold ticking. by rewrite Ht, Ha, Hq.
Qed.

(** Running a handler keeps the invariant, provided the timer was right
    before (it need not be when the handler changes a dependency of the
    countdown effect, which then arms it again). *)
Lemma handle_inv t w :
  handler_task t ->
  Forall pending_ok (inflight w) ->
  (deps_eqb (comp w) (exec t (comp w) (win w)).1.1 = true -> timer_ok w) ->
  Inv (fst (handle t w)).
Proof.
  intros Ht Hp Htm. rewrite handle_eq. cbn [fst].
  apply settle_inv; unfold batched; cbn [inflight comp].
  - apply Forall_app. split; [done|].
    destruct (exec t (comp w) (win w)) as [[s g] [p|]] eqn:He; cbn; [|done].
    repeat constructor. by eapply exec_pending_ok.
  - intros Hd. specialize (Htm Hd). unfold timer_ok in *. cbn [timer comp].
    rewrite Htm. rewrite (deps_eqb_ticking _ _ Hd).
    by destruct (deps_eqb_true _ _ Hd) as [-> _].
Qed.

Lemma mount_eq ud :
  mount ud =
  ({| userData := ud; comp := apply_state (setLoading true) initialState;
      win := emptyWindow; timer := Some 30;
      inflight := [PendStart (PostStart 10 (requestBody_user_id ud)) start_k] |},
   [PostStart 10 (requestBody_user_id ud)]).
Proof. reflexivity. Qed.

Lemma mount_inv ud : Inv (fst (mount ud)).
Proof.
  rewrite mount_eq. split; [reflexivity|]. cbn. repeat constructor.
Qed.

Lemma step_inv w e : Inv w -> Inv (fst (step w e)).
Proof.
  intros [Ht Hp]. destruct e as [ud| |i| |n r]; cbn [step].
  - case_bool_decide; [done|].
    apply handle_inv; [constructor|done|done].
  - destruct (timer w) as [t|] eqn:Htm; [|done].
    apply handle_inv; [constructor|done|].
    cbn. unfold timer_ok in Ht. rewrite Htm in Ht.
    destruct (ticking (comp w)); [|done]. injection Ht as ->.
    unfold deps_eqb. cbn.
    replace (timeLeft (comp w) =? timeLeft (comp w) - 1) with false
      by (symmetry; apply Z.eqb_neq; lia).
    done.
  - apply handle_inv; [constructor|done|done].
  - apply handle_inv; [constructor|done|done].
  - destruct (inflight w !! n) as [p|] eqn:Hn; [|done].
    destruct (resume p r) as [t|] eqn:Hr; [|done].
    apply handle_inv; cbn.
    + econstructor; [|done]. by eapply Forall_lookup_1.
    + by apply Forall_delete.
    + done.
Qed.

Lemma run_inv es : forall w, Inv w -> Inv (fst (run w es)).
Proof.
  induction es as [|e es IH]; intros w Hw; [done|].
  cbn [run]. pose proof (step_inv w e Hw) as H1.
  destruct (step w e) as [w1 r1]. specialize (IH w1 H1).
  by destruct (run w1 es).
Qed.

(** Every world the component reaches satisfies the invariant. *)
Lemma session_inv ud es : Inv (fst (session ud es)).
Proof.
  unfold session. pose proof (mount_inv ud) as H0.
  destruct (mount ud) as [w0 r0]. pose proof (run_inv es w0 H0) as H1.
  by destruct (run w0 es).
Qed.

Lemma settle_completes prev w : completes (snd (settle prev w)) = [].
Proof.
  destruct (settle_cases prev w)
    as [[Hd ->]|[(Hd & Hs & Hk & ->)|[(Hd & He & ->)|(sid & q & Hd & Hk & He & Hs & ->)]]];
    reflexivity.
Qed.

Lemma completes_app l1 l2 : completes (l1 ++ l2) = completes l1 ++ completes l2.
Proof. apply filter_app. Qed.

Lemma handle_completes t w :
  completes (snd (handle t w))
  = completes (pending_request <$> option_list (exec t (comp w) (win w)).2).
Proof.
  rewrite handle_eq. cbn [snd].
  by rewrite completes_app, settle_completes, app_nil_r.
Qed.

(** Case analysis on an event in a world that satisfies the invariant: the
    request in flight a response is for is one of the component's own. *)
Ltac event_cases w e HInv :=
  let ud := fresh "ud" in
  let i := fresh "i" in
  let n := fresh "n" in
  let r := fresh "r" in
  let p := fresh "p" in
  let Hn := fresh "Hn" in
  let Hp := fresh "Hp" in
  destruct e as [ud| |i| |n r]; cbn [step];
  [ case_bool_decide
  | destruct (timer w) eqn:?
  |
  |
  | destruct (inflight w !! n) as [p|] eqn:Hn;
    [ pose proof (Forall_lookup_1 _ _ _ _ (proj2 HInv) Hn) as Hp;
      destruct Hp; destruct r as [[?data|]|[?data|]|?ok]; cbn [resume]
    | ] ].

Lemma step_completes w e :
  Inv w -> completes (snd (step w e)) = completion_of w e.
Proof.
  intros HInv. event_cases w e HInv; cbn [completion_of]; try rewrite Hn;
    try reflexivity; try rewrite handle_completes; cbn [comp win];
    try reflexivity.
  - rewrite exec_handleAnswerSelect.
    by destruct (submit_target (comp w)) as [[sid q]|].
  - unfold nextQuestion. by destruct (__nextQuestion (win w)).
  - erewrite exec_handleAnswerSelect_k by done.
    by destruct (quiz_complete data).
  - erewrite exec_handleTimeout_k by done.
    by destruct (quiz_complete data).
  - destruct r as [?|[?|]|?]; try reflexivity; by rewrite Hn.
Qed.

(** The renders after a batch write [isAnswered], [selectedAnswer] and
    [isTimeout] at most; they leave the rest of the state and the window
    alone. *)
Lemma settle_frame prev w :
  let w' := (settle prev w).1 in
  win w' = win w /\ userData w' = userData w
  /\ sessionId (comp w') = sessionId (comp w)
  /\ question (comp w') = question (comp w)
  /\ score (comp w') = score (comp w)
  /\ timeLeft (comp w') = timeLeft (comp w)
  /\ quizComplete (comp w') = quizComplete (comp w)
  /\ difficultyLevel (comp w') = difficultyLevel (comp w)
  /\ loading (comp w') = loading (comp w).
Proof.
  destruct (settle_cases prev w)
    as [[Hd ->]|[(Hd & Hs & Hk & ->)|[(Hd & He & ->)|(sid & q & Hd & Hk & He & Hs & ->)]]];
    cbn; done.
Qed.

Lemma handle_difficulty t w :
  difficultyLevel (comp (handle t w).1)
  = difficultyLevel (exec t (comp w) (win w)).1.1.
Proof.
  rewrite handle_eq. cbn [fst].
  by destruct (settle_frame (comp w) (batched t w)) as (_&_&_&_&_&_&_&->&_).
Qed.

Lemma graded_difficulty data s :
  difficultyLevel (graded data s)
  = match difficulty_level data with
    | Some d => if truthy_number d then d else difficultyLevel s
    | None => difficultyLevel s
    end.
Proof.
  unfold graded.
  destruct (difficulty_level data) as [d|]; [destruct (truthy_number d)|];
    by destruct (quiz_complete data).
Qed.

Lemma step_difficulty w e :
  Inv w -> difficultyLevel (comp (step w e).1) = level_after w e.
Proof.
  intros HInv. event_cases w e HInv; cbn [level_after]; try rewrite Hn;
    try reflexivity; try rewrite handle_difficulty; cbn [comp win];
    try reflexivity.
  - rewrite exec_handleAnswerSelect.
    by destruct (submit_target (comp w)) as [[sid q]|].
  - unfold nextQuestion. by destruct (__nextQuestion (win w)).
  - erewrite exec_handleAnswerSelect_k by done.
    destruct (quiz_complete data); cbn [fst]; apply graded_difficulty.
  - erewrite exec_handleTimeout_k by done.
    destruct (quiz_complete data); cbn [fst]; apply graded_difficulty.
  - destruct r as [?|[?|]|?]; try reflexivity; by rewrite Hn.
Qed.

Lemma step_complete_constants w e :
  Inv w -> Forall complete_constants (step w e).2.
Proof.
  intros HInv. apply Forall_forall. intros r Hr.
  destruct r as [tq uid|sid qid a t|sid fs ca tq]; try exact I.
  assert (Hin : PostComplete sid fs ca tq ∈ completes (step w e).2).
  { unfold completes. apply list_elem_of_filter. by split. }
  rewrite step_completes in Hin by done.
  unfold completion_of in Hin.
  repeat case_match; try by apply not_elem_of_nil in Hin.
  apply list_elem_of_singleton in Hin. injection Hin as -> -> -> ->. done.
Qed.

Lemma run_complete_constants es :
  forall w, Inv w -> Forall complete_constants (run w es).2.
Proof.
  induction es as [|e es IH]; intros w Hw; [by constructor|].
  cbn [run]. pose proof (step_inv w e Hw) as H1.
  pose proof (step_complete_constants w e Hw) as H2.
  destruct (step w e) as [w1 r1]. specialize (IH w1 H1).
  destruct (run w1 es) as [w2 r2]. cbn [snd fst] in *.
  by apply Forall_app.
Qed.

Lemma session_requests ud es :
  (session ud es).2
  = PostStart 10 (requestBody_user_id ud) :: (run (mount ud).1 es).2.
Proof.
  unfold session. rewrite mount_eq. cbn [fst].
  match goal with |- context [run ?a es] => by destruct (run a es) end.
Qed.

Lemma session_world ud es : (session ud es).1 = (run (mount ud).1 es).1.
Proof.
  unfold session. rewrite mount_eq. cbn [fst].
  match goal with |- context [run ?a es] => by destruct (run a es) end.
Qed.

(** C7. Whenever the response to an answer request in flight carries
    [quiz_complete = true], handling it sends exactly one POST to
    /api/quiz/complete; its [session_id] is that of the answer request and
    its [final_score] is the [score] of the response. *)
Theorem quiz_complete_posts_completion_once ud es n req k data :
  let w := (session ud es).1 in
  inflight w !! n = Some (PendAnswer req k) ->
  quiz_complete data = true ->
  exists sid qid a t,
    req = PostAnswer sid qid a t
    /\ completes (step w (EvResponse n (AnswerJson (Some data)))).2
       = [PostComplete sid (ar_score data) 1 10].
Proof.
  intros w Hn Hq. pose proof (session_inv ud es) as HInv. fold w in HInv.
  rewrite step_completes by done. cbn [completion_of]. rewrite Hn, Hq.
  pose proof (Forall_lookup_1 _ _ _ _ (proj2 HInv) Hn) as Hp.
  inversion Hp; subst; eauto 10.
Qed.

(** C9. Every POST to /api/quiz/complete the page sends, from its first
    render on and whatever happens to it, has [correct_answers = 1] and
    [total_questions = 10] in its body. *)
Theorem complete_body_constants ud es i sid final_score ca tq :
  (session ud es).2 !! i = Some (PostComplete sid final_score ca tq) ->
  ca = 1 /\ tq = 10.
Proof.
  rewrite session_requests. intros Hi.
  assert (H : Forall complete_constants
                (PostStart 10 (requestBody_user_id ud) :: (run (mount ud).1 es).2)).
  { constructor; [exact I|]. apply run_complete_constants, mount_inv. }
  exact (Forall_lookup_1 _ _ _ _ H Hi).
Qed.

(** C10. The difficulty level shown starts at 1.  An event changes it only
    when it is the response to an answer request in flight and that
    response has a truthy [difficulty_level], which becomes the level shown;
    with [difficulty_level] 0 or absent, and on every other event, the level
    shown stays what it was.  The level on screen is the state variable. *)
Theorem difficulty_level_display ud es e :
  let w := (session ud es).1 in
  difficultyLevel (comp (mount ud).1) = 1
  /\ difficultyLevel (comp (step w e).1) = level_after w e
  /\ forall q sc tl d vs dis tb nx,
       render (comp w) (win w) = QuestionView q sc tl d vs dis tb nx ->
       d = difficultyLevel (comp w).
Proof.
  intros w. split; [reflexivity|]. split; [apply step_difficulty, session_inv|].
  intros q sc tl d vs dis tb nx. unfold render.
  destruct (loading (comp w)); [discriminate|].
  destruct (quizComplete (comp w)); [discriminate|].
  destruct (question (comp w)); [|discriminate].
  by intros [= _ _ _ <- _ _ _ _].
Qed.

Lemma settle_answers prev w :
  ((settle prev w).2 = []
   /\ isAnswered (comp (settle prev w).1) = isAnswered (comp w))
  \/ (exists r, (settle prev w).2 = [r] /\ is_answer r = true
      /\ isAnswered (comp w) = false
      /\ isAnswered (comp (settle prev w).1) = true).
Proof.
  destruct (settle_cases prev w)
    as [[Hd ->]|[(Hd & Hs & Hk & ->)|[(Hd & He & ->)|(sid & q & Hd & Hk & He & Hs & ->)]]];
    [by left..|].
  right. eexists. repeat split.
  by destruct (submit_target_Some _ _ _ Hs) as (_&_&_&?).
Qed.

Lemma handle_one_submission t w w0 :
  comp w0 = comp w ->
  (let r := exec t (comp w0) (win w0) in
   (answers (pending_request <$> option_list r.2) = []
    /\ isAnswered r.1.1 = isAnswered (comp w))
   \/ (exists q, pending_request <$> option_list r.2 = [q]
       /\ is_answer q = true
       /\ isAnswered (comp w) = false /\ isAnswered r.1.1 = true)) ->
  one_submission w (handle t w0).
Proof.
  intros Hc H. rewrite handle_eq. unfold one_submission. cbn [fst snd].
  unfold answers in *. rewrite filter_app.
  destruct (settle_answers (comp w0) (batched t w0))
    as [[-> Hs]|(r & -> & Hr & Hb & Hs)];
    rewrite Hs; cbn [batched comp] in *; clear Hs;
    destruct H as [[-> Ha]|(q & -> & Hq & Ha & Ha')].
  - rewrite Ha. cbn. repeat split; auto. 
  - rewrite filter_cons_True by done. cbn. rewrite Ha, Ha'.
    repeat split; auto. discriminate.
  - rewrite filter_cons_True by done. cbn. rewrite <- Ha, Hb.
    repeat split; auto. discriminate.
  - congruence.
Qed.

Lemma ignored_one_submission w : one_submission w (w, []).
Proof. unfold one_submission. cbn. repeat split; auto. Qed.

Lemma graded_isAnswered data s : isAnswered (graded data s) = isAnswered s.
Proof.
  unfold graded.
  destruct (difficulty_level data) as [d|]; [destruct (truthy_number d)|];
    by destruct (quiz_complete data).
Qed.

Lemma step_one_submission w e :
  Inv w -> shows_question e = false -> one_submission w (step w e).
Proof.
  intros HInv Hq. event_cases w e HInv; try apply ignored_one_submission;
    try discriminate Hq;
    (apply handle_one_submission; [reflexivity|]); cbn [comp win];
    try (left; split; reflexivity).
  - rewrite exec_handleAnswerSelect.
    destruct (submit_target (comp w)) as [[sid q]|] eqn:Hs; [|by left].
    right. eexists. repeat split.
    by destruct (submit_target_Some _ _ _ Hs) as (_&_&_&?).
  - erewrite exec_handleAnswerSelect_k by done. left.
    destruct (quiz_complete data); cbn; by rewrite graded_isAnswered.
  - erewrite exec_handleTimeout_k by done. left.
    destruct (quiz_complete data); cbn; by rewrite graded_isAnswered.
Qed.

Lemma run_one_submission es :
  forall w, Inv w ->
  forallb (fun e => negb (shows_question e)) es = true ->
  one_submission w (run w es).
Proof.
  induction es as [|e es IH]; intros w Hw Hes; [apply ignored_one_submission|].
  cbn [forallb] in Hes. apply andb_true_iff in Hes as [He Hes].
  apply negb_true_iff in He.
  pose proof (step_inv w e Hw) as H1.
  pose proof (step_one_submission w e Hw He) as (Ha & Hb & Hc).
  cbn [run]. destruct (step w e) as [w1 r1]. cbn [fst snd] in *.
  specialize (IH w1 H1 Hes). destruct IH as (Ia & Ib & Ic).
  destruct (run w1 es) as [w2 r2]. cbn [fst snd] in *.
  unfold one_submission, answers in *. cbn [fst snd]. rewrite filter_app.
  split; [|split].
  - intros Hw1. destruct (Ha Hw1) as [-> Hw2]. by destruct (Ia Hw2) as [-> ?].
  - destruct (filter _ r1) as [|x l] eqn:Hf; [done|].
    destruct (Ia (Hc ltac:(done))) as [-> _].
    by rewrite app_nil_r.
  - intros Hne. destruct (filter _ r1) as [|x l] eqn:Hf.
    + by apply Ic.
    + by destruct (Ia (Hc ltac:(done))) as [_ ?].
Qed.

(** X18. The answered flag between two displays.  From any state the page
    reaches, and over any events that do not show a question (no
    next-question click, no start response), the page sends at most one
    answer submission, a chosen option or the timeout sentinel.  Once the
    answered flag is set it sends none and the flag stays set, and both
    [handleAnswerSelect] and [handleTimeout] return at their guard. *)
Theorem at_most_one_submission_per_question ud es0 es :
  let w := (session ud es0).1 in
  forallb (fun e => negb (shows_question e)) es = true ->
  (length (answers (run w es).2) <= 1)%nat
  /\ (isAnswered (comp w) = true ->
      answers (run w es).2 = [] /\ isAnswered (comp (run w es).1) = true
      /\ forall answerIndex,
           handleAnswerSelect (comp w) answerIndex = Ret
           /\ handleTimeout (comp w) = Ret).
Proof.
  intros w Hes.
  destruct (run_one_submission es w (session_inv ud es0) Hes) as (Ha & Hb & _).
  split; [done|]. intros Hw. destruct (Ha Hw) as [? ?].
  repeat split; try done; unfold handleAnswerSelect, handleTimeout; rewrite Hw;
    by destruct (question (comp w)), (sessionId (comp w)).
Qed.

Lemma handle_frame t w :
  let w' := (handle t w).1 in
  let r := exec t (comp w) (win w) in
  win w' = r.1.2 /\ userData w' = userData w
  /\ sessionId (comp w') = sessionId r.1.1
  /\ question (comp w') = question r.1.1
  /\ score (comp w') = score r.1.1
  /\ timeLeft (comp w') = timeLeft r.1.1
  /\ quizComplete (comp w') = quizComplete r.1.1
  /\ difficultyLevel (comp w') = difficultyLevel r.1.1
  /\ loading (comp w') = loading r.1.1.
Proof.
  cbn zeta. rewrite handle_eq. cbn [fst].
  apply (settle_frame (comp w) (batched t w)).
Qed.

Lemma graded_question data s : question (graded data s) = question s.
Proof.
  unfold graded.
  destruct (difficulty_level data) as [d|]; [destruct (truthy_number d)|];
    by destruct (quiz_complete data).
Qed.

(** A step that changes the question on display resets the countdown. *)
Lemma step_question_reset w e :
  Inv w ->
  question (comp (step w e).1) <> question (comp w) ->
  timeLeft (comp (step w e).1) = 30.
Proof.
  intros HInv. event_cases w e HInv; cbn [fst]; try done;
    match goal with
    | |- context [handle ?t ?w0] =>
        destruct (handle_frame t w0) as (_&_&_&->&_&->&_)
    end; cbn [comp win]; try done.
  - rewrite exec_handleAnswerSelect.
    by destruct (submit_target (comp w)) as [[sid q]|].
  - unfold nextQuestion. by destruct (__nextQuestion (win w)).
  - erewrite exec_handleAnswerSelect_k by done.
    destruct (quiz_complete data); cbn [fst]; by rewrite graded_question.
  - erewrite exec_handleTimeout_k by done.
    destruct (quiz_complete data); cbn [fst]; by rewrite graded_question.
Qed.

(** One tick of the countdown of an unanswered question. *)
Lemma tick_once w q sid :
  Inv w ->
  question (comp w) = Some q -> sessionId (comp w) = Some sid ->
  truthy_string sid = true ->
  isAnswered (comp w) = false -> quizComplete (comp w) = false ->
  0 < timeLeft (comp w) ->
  let c' := apply_state (setTimeLeft (timeLeft (comp w) - 1)) (comp w) in
  step w EvTick =
  if timeLeft (comp w) =? 1 then
    ({| userData := userData w; comp := timed_out c'; win := win w;
        timer := None;
        inflight := inflight w ++
          [PendAnswer (PostAnswer sid (q_id q) (-1) 0) (handleTimeout_k c')] |},
     [PostAnswer sid (q_id q) (-1) 0])
  else
    ({| userData := userData w; comp := c'; win := win w;
        timer := Some (timeLeft (comp w) - 1); inflight := inflight w |}, []).
Proof.
  intros [Ht _] Hq Hs Hsid Ha Hc Hpos c'. cbn [step].
  assert (Htk : ticking (comp w) = true).
  { unfold ticking. rewrite Ha, Hc. cbn. rewrite !andb_true_r. by apply Z.ltb_lt. }
  unfold timer_ok in Ht. rewrite Htk in Ht. rewrite Ht.
  rewrite handle_eq. unfold batched. cbn [exec comp win set_timer fst snd timer
    inflight userData option_list fmap list_fmap app].
  fold c'. rewrite app_nil_r. unfold settle. cbn [comp].
  assert (Hd : deps_eqb (comp w) c' = false).
  { unfold deps_eqb. cbn.
    replace (timeLeft (comp w) =? timeLeft (comp w) - 1) with false
      by (symmetry; apply Z.eqb_neq; lia).
    done. }
  rewrite Hd. unfold ticking, expired, submit_target. cbn.
  rewrite Ha, Hc, Hq, Hs, Hsid. cbn.
  destruct (timeLeft (comp w) =? 1) eqn:H1.
  - apply Z.eqb_eq in H1. rewrite H1. cbn.
    reflexivity.
  - apply Z.eqb_neq in H1.
    replace (0 <? timeLeft (comp w) - 1) with true
      by (symmetry; apply Z.ltb_lt; lia).
    reflexivity.
Qed.

Lemma countdown_run m :
  forall w q sid,
  Inv w ->
  question (comp w) = Some q -> sessionId (comp w) = Some sid ->
  truthy_string sid = true ->
  isAnswered (comp w) = false -> quizComplete (comp w) = false ->
  timeLeft (comp w) = Z.of_nat (S m) ->
  (forall j, (j <= m)%nat ->
     (run w (repeat EvTick j)).2 = []
     /\ timeLeft (comp (run w (repeat EvTick j)).1)
        = timeLeft (comp w) - Z.of_nat j)
  /\ (run w (repeat EvTick (S m))).2 = [PostAnswer sid (q_id q) (-1) 0].
Proof.
  induction m as [|m IH]; intros w q sid HInv Hq Hs Hsid Ha Hc Hn.
  - pose proof (tick_once w q sid HInv Hq Hs Hsid Ha Hc ltac:(lia)) as Hstep.
    cbn zeta in Hstep. rewrite Hn in Hstep. cbn [Z.of_nat Pos.of_succ_nat Z.eqb Pos.eqb] in Hstep.
    split.
    + intros j Hj. replace j with 0%nat by lia. cbn. split; [done|lia].
    + cbn [repeat run]. by rewrite Hstep.
  - pose proof (tick_once w q sid HInv Hq Hs Hsid Ha Hc ltac:(lia)) as Hstep.
    cbn zeta in Hstep.
    replace (timeLeft (comp w) =? 1) with false in Hstep
      by (symmetry; apply Z.eqb_neq; lia).
    pose proof (step_inv w EvTick HInv) as HInv1.
    rewrite Hstep in HInv1. cbn [fst] in HInv1.
    match type of HInv1 with Inv ?w1 =>
      specialize (IH w1 q sid HInv1 Hq Hs Hsid Ha Hc ltac:(cbn; lia));
      set (w1' := w1) in *
    end.
    destruct IH as [IH1 IH2]. split.
    + intros [|j] Hj; [cbn; split; [done|lia]|].
      cbn [repeat run]. rewrite Hstep. fold w1'.
      destruct (IH1 j ltac:(lia)) as [I1 I2].
      destruct (run w1' (repeat EvTick j)) as [w2 r2]. cbn [fst snd] in *.
      split; [done|]. rewrite I2. subst w1'. cbn. lia.
    + change (repeat EvTick (S (S m))) with (EvTick :: repeat EvTick (S m)).
      cbn [run]. rewrite Hstep. fold w1'.
      destruct (run w1' (repeat EvTick (S m))) as [w2 r2]. cbn [fst snd] in *.
      done.
Qed.

(** C4. The countdown starts at 30; whenever a step changes the question
    on display it is back at 30; and for a question on display, not yet
    answered, in a session the page holds an id for, the countdown goes
    down by one per tick without sending anything, and the tick that
    brings it to 0 sends the answer request of the current question with
    [answer_index = -1] and [time_left = 0]. *)
Theorem countdown_and_timeout :
  (forall ud, timeLeft (comp (mount ud).1) = 30)
  /\ (forall ud es e,
        let w := (session ud es).1 in
        question (comp (step w e).1) <> question (comp w) ->
        timeLeft (comp (step w e).1) = 30)
  /\ (forall ud es q sid,
        let w := (session ud es).1 in
        displayed (comp w) = Some q -> isAnswered (comp w) = false ->
        sessionId (comp w) = Some sid -> truthy_string sid = true ->
        0 < timeLeft (comp w) ->
        let n := Z.to_nat (timeLeft (comp w)) in
        (forall j, (j < n)%nat ->
           (run w (repeat EvTick j)).2 = []
           /\ timeLeft (comp (run w (repeat EvTick j)).1)
              = timeLeft (comp w) - Z.of_nat j)
        /\ (run w (repeat EvTick n)).2 = [PostAnswer sid (q_id q) (-1) 0]).
Proof.
  split; [reflexivity|]. split.
  - intros ud es e w. apply step_question_reset, session_inv.
  - intros ud es q sid w Hd Ha Hs Hsid Hpos n.
    unfold displayed in Hd.
    destruct (loading (comp w)); [discriminate|].
    destruct (quizComplete (comp w)) eqn:Hc; [discriminate|]. cbn in Hd.
    destruct n as [|m] eqn:Hn; [lia|].
    destruct (countdown_run m w q sid (session_inv ud es) Hd Hs Hsid Ha Hc
                ltac:(lia)) as [H1 H2].
    split; [|done]. intros j Hj. apply H1. lia.
Qed.

Lemma settle_not_expired prev w :
  expired (comp w) = false -> comp (settle prev w).1 = comp w.
Proof.
  intros He.
  destruct (settle_cases prev w)
    as [[Hd ->]|[(Hd & Hs & Hk & ->)|[(Hd & _ & ->)|(sid & q & Hd & Hk & He' & Hs & ->)]]];
    try done. congruence.
Qed.

Lemma requestBody_user_id_spec ud uid :
  requestBody_user_id ud = Some uid
  <-> exists u, ud = Some u /\ user_id u = uid /\ uid <> EmptyString.
Proof.
  unfold requestBody_user_id, truthy_string. split.
  - destruct ud as [u|]; [|discriminate].
    destruct (String.eqb_spec (user_id u) EmptyString) as [He|Hne];
      cbn; [discriminate|].
    intros [= <-]. eauto.
  - intros (u & -> & <- & Hne).
    by destruct (String.eqb_spec (user_id u) EmptyString).
Qed.

(** C8. The first render POSTs to /api/quiz/start with [total_questions]
    10, and so does every later change of the [userData] prop; the body has
    a [user_id] exactly when [userData] is there with a non-empty
    [user_id], and it is that one.  When the response to a start request in
    flight arrives, the page takes the session id, the question and the
    score from it, puts the countdown at 30 (armed, unless an earlier quiz
    was completed), and has no answer selected, the answered and timeout
    flags down and the loading flag down. *)
Theorem quiz_start :
  (forall ud, (mount ud).2 = [PostStart 10 (requestBody_user_id ud)])
  /\ (forall ud es ud',
        let w := (session ud es).1 in
        ud' <> userData w ->
        (step w (EvUserData ud')).2 = [PostStart 10 (requestBody_user_id ud')])
  /\ (forall ud uid,
        requestBody_user_id ud = Some uid
        <-> exists u, ud = Some u /\ user_id u = uid /\ uid <> EmptyString)
  /\ (forall ud es n req k data,
        let w := (session ud es).1 in
        inflight w !! n = Some (PendStart req k) ->
        let w' := (step w (EvResponse n (StartJson (Some data)))).1 in
        sessionId (comp w') = Some (sr_session_id data)
        /\ question (comp w') = Some (sr_question data)
        /\ score (comp w') = sr_score data
        /\ timeLeft (comp w') = 30
        /\ selectedAnswer (comp w') = None
        /\ isAnswered (comp w') = false
        /\ isTimeout (comp w') = false
        /\ loading (comp w') = false
        /\ (quizComplete (comp w) = false -> timer w' = Some 30)).
Proof.
  split; [reflexivity|]. split; [|split; [apply requestBody_user_id_spec|]].
  - intros ud es ud' w Hne. cbn [step].
    rewrite bool_decide_eq_false_2 by done.
    rewrite handle_eq. cbn [snd]. unfold batched, settle.
    cbn [exec start comp win set_userData fst snd option_list fmap list_fmap].
    change (deps_eqb (comp w) (apply_state (setLoading true) (comp w)))
      with (deps_eqb (comp w) (comp w)).
    by rewrite deps_eqb_refl.
  - intros ud es n req k data w Hn w'.
    pose proof (session_inv ud es) as HInv. fold w in HInv.
    pose proof (step_inv w (EvResponse n (StartJson (Some data))) HInv) as HInv'.
    fold w' in HInv'.
    pose proof (Forall_lookup_1 _ _ _ _ (proj2 HInv) Hn) as Hp.
    inversion Hp; subst.
    assert (Hc : comp w' = (exec (start_k (Some data)) (comp w) (win w)).1.1).
    { subst w'. cbn [step]. rewrite Hn. cbn [resume].
      rewrite handle_eq. cbn [fst]. apply settle_not_expired.
      unfold batched, expired. cbn. done. }
    cbn in Hc. rewrite Hc. cbn. repeat split.
    intros Hq. destruct HInv' as [Ht _]. unfold timer_ok in Ht.
    rewrite Ht, Hc. unfold ticking. cbn. by rewrite Hq.
Qed.





(** ** The theorems at work on the sample run *)

Lemma countdown_and_timeout_witness :
  let w := (session None sample_first_question).1 in
  displayed (comp w) = Some sample_q2
  /\ isAnswered (comp w) = false
  /\ sessionId (comp w) = Some "s1"%string
  /\ truthy_string "s1" = true
  /\ 0 < timeLeft (comp w)
  /\ (run w (repeat EvTick (Z.to_nat (timeLeft (comp w))))).2
     = [PostAnswer "s1" (q_id sample_q2) (-1) 0].
Proof.
  intros w.
  assert (H1 : displayed (comp w) = Some sample_q2) by (vm_compute; reflexivity).
  assert (H2 : isAnswered (comp w) = false) by (vm_compute; reflexivity).
  assert (H3 : sessionId (comp w) = Some "s1"%string)
    by (vm_compute; reflexivity).
  assert (H4 : truthy_string "s1" = true) by (vm_compute; reflexivity).
  assert (H5 : 0 < timeLeft (comp w)) by (vm_compute; reflexivity).
  repeat (split; [assumption|]).
  exact (proj2 (proj2 (proj2 countdown_and_timeout) None sample_first_question
                  sample_q2 "s1"%string H1 H2 H3 H4 H5)).
Defined.

Lemma at_most_one_submission_per_question_witness :
  let w := (session None (take 3 sample_first_question)).1 in
  let es := [EvTick; EvClickOption 1;
             EvResponse 0 (AnswerJson (Some sample_answer1))] in
  forallb (fun e => negb (shows_question e)) es = true
  /\ isAnswered (comp w) = true
  /\ (length (answers (run w es).2) <= 1)%nat
  /\ answers (run w es).2 = [].
Proof.
  intros w es.
  assert (H1 : forallb (fun e => negb (shows_question e)) es = true)
    by (vm_compute; reflexivity).
  assert (H2 : isAnswered (comp w) = true) by (vm_compute; reflexivity).
  destruct (at_most_one_submission_per_question
              None (take 3 sample_first_question) es H1) as [Ha Hb].
  destruct (Hb H2) as [Hc _].
  repeat (split; [assumption|]). exact Hc.
Defined.

Lemma quiz_complete_posts_completion_once_witness :
  let w := (session None sample_second_question).1 in
  exists req k,
    inflight w !! 0%nat = Some (PendAnswer req k)
    /\ quiz_complete sample_answer2 = true
    /\ completes (step w (EvResponse 0 (AnswerJson (Some sample_answer2)))).2
       = [PostComplete "s1" (ar_score sample_answer2) 1 10].
Proof.
  intros w.
  destruct (inflight w !! 0%nat) as [[req k|req k|req k]|] eqn:Hn;
    try (vm_compute in Hn; discriminate Hn).
  assert (Hq : quiz_complete sample_answer2 = true) by reflexivity.
  exists req, k. split; [reflexivity|]. split; [exact Hq|].
  destruct (quiz_complete_posts_completion_once
              None sample_second_question 0%nat req k sample_answer2 Hn Hq)
    as (sid & qid & a & t & Hreq & Hc).
  assert (Hsid : sid = "s1"%string).
  { vm_compute in Hn. injection Hn as Hn _. rewrite <- Hn in Hreq.
    by injection Hreq as <- _ _ _. }
  rewrite <- Hsid. exact Hc.
Defined.

Lemma quiz_start_witness :
  let w := (session None []).1 in
  let w' := (step w (EvResponse 0 (StartJson (Some sample_start)))).1 in
  inflight w !! 0%nat = Some (PendStart (PostStart 10 None) start_k)
  /\ sessionId (comp w') = Some (sr_session_id sample_start)
  /\ question (comp w') = Some (sr_question sample_start)
  /\ score (comp w') = sr_score sample_start
  /\ timeLeft (comp w') = 30
  /\ selectedAnswer (comp w') = None
  /\ isAnswered (comp w') = false
  /\ isTimeout (comp w') = false
  /\ loading (comp w') = false
  /\ (quizComplete (comp w) = false -> timer w' = Some 30).
Proof.
  intros w w'.
  assert (H : inflight w !! 0%nat
              = Some (PendStart (PostStart 10 None) start_k)) by reflexivity.
  split; [exact H|].
  exact (proj2 (proj2 (proj2 quiz_start)) None [] 0%nat
           (PostStart 10 None) start_k sample_start H).
Defined.

Lemma complete_body_constants_witness :
  exists ca tq,
    (session None sample_quiz).2 !! 3%nat
    = Some (PostComplete "s1" 30 ca tq)
    /\ ca = 1 /\ tq = 10.
Proof.
  destruct ((session None sample_quiz).2 !! 3%nat)
    as [[?|?|sid fs ca tq]|] eqn:H; try (vm_compute in H; discriminate H).
  assert (Hs : sid = "s1"%string /\ fs = 30)
    by (vm_compute in H; injection H as <- <- _ _; done).
  destruct Hs as [-> ->].
  exists ca, tq. split; [reflexivity|].
  exact (complete_body_constants None sample_quiz 3%nat "s1" 30 ca tq H).
Defined.

Lemma difficulty_level_display_witness :
  let w := (session None sample_first_question).1 in
  render (comp w) (win w)
  = QuestionView sample_q2 30 30 2 [primary; primary; primary; primary]
      false false NoNext
  /\ 2 = difficultyLevel (comp w).
Proof.
  intros w.
  assert (H : render (comp w) (win w)
              = QuestionView sample_q2 30 30 2
                  [primary; primary; primary; primary] false false NoNext)
    by (vm_compute; reflexivity).
  split; [exact H|].
  exact (proj2 (proj2 (difficulty_level_display None sample_first_question
                         EvTick)) _ _ _ _ _ _ _ _ H).
Defined.

(** C5. The guard does not give one submission per question.  In the
    sample run, once the first option of the second question is clicked,
    the page offers "Next Question" before any response to that answer
    ([window.__nextQuestion] still holds the second question); the click
    shows the second question again with the answered flag down, and a
    second answer goes out for the same question id: another option, or the
    timeout sentinel after a chosen option. *)
Lemma same_question_submitted_twice :
  let shown := sample_first_question ++ [EvClickOption 0] in
  let w := (session None shown).1 in
  (exists sc tl d vs tb,
     render (comp w) (win w)
     = QuestionView sample_q2 sc tl d vs true tb NextButton)
  /\ answers (session None (shown ++ [EvClickNext; EvClickOption 1])).2
     = [PostAnswer "s1" "q1" 2 29; PostAnswer "s1" "q2" 0 30;
        PostAnswer "s1" "q2" 1 30]
  /\ answers (session None (shown ++ EvClickNext :: repeat EvTick 30)).2
     = [PostAnswer "s1" "q1" 2 29; PostAnswer "s1" "q2" 0 30;
        PostAnswer "s1" "q2" (-1) 0].
Proof.
  intros shown w. split; [|split].
  - do 5 eexists. vm_compute. reflexivity.
  - vm_compute. reflexivity.
  - vm_compute. reflexivity.
Qed.

End ClientFacts.

(** * Facts about the quiz session engine *)

Module EngineFacts.
Import Engine.

(** What a successful [submitAnswer] did. *)
Lemma submitAnswer_Ok cfg st sid qid a t st' r :
  submitAnswer cfg st sid qid a t = Ok (st', r) ->
  exists s q,
    st !! sid = Some s /\ status s = ACTIVE
    /\ questions s !! current_index s = Some q /\ q_id q = qid
    /\ st' = <[sid := record_answer cfg s (grade q a) a t]> st
    /\ r = answer_result q (grade q a) (record_answer cfg s (grade q a) a t).
Proof.
  unfold submitAnswer. destruct (st !! sid) as [s|] eqn:Hs; [|discriminate].
  cbn. unfold is_active. destruct (status s) eqn:Hst; [|discriminate]. cbn.
  destruct (questions s !! current_index s) as [q|] eqn:Hq; [|discriminate].
  cbn. case_bool_decide as Hid; [|discriminate]. cbn.
  intros [= <- <-]. exists s, q. done.
Qed.

(** When [submitAnswer] fails for a session that is in the store. *)
Lemma submitAnswer_complete cfg st sid qid a t s :
  st !! sid = Some s -> status s = COMPLETE ->
  submitAnswer cfg st sid qid a t = Err SessionNotFound.
Proof.
  intros Hs Hst. unfold submitAnswer, is_active. rewrite Hs. cbn.
  by rewrite Hst.
Qed.

Lemma clamp_range lo hi x : lo <= hi -> lo <= clamp lo hi x <= hi.
Proof. unfold clamp. lia. Qed.

Lemma adapt_range cfg level log :
  config_ok cfg ->
  starting_level <= level <= max_level cfg ->
  starting_level <= adapt cfg level log <= max_level cfg.
Proof.
  intros Hcfg Hl. unfold adapt.
  repeat case_match; try done; apply clamp_range, Hcfg.
Qed.

Lemma points_pos cfg t level :
  config_ok cfg -> starting_level <= level -> 0 < points cfg t level.
Proof.
  intros Hcfg Hl. unfold points, starting_level in *.
  pose proof (base_points_pos _ Hcfg). pose proof (bonus_nonneg _ Hcfg t).
  nia.
Qed.

Lemma points_mono cfg t1 t2 d1 d2 :
  config_ok cfg -> t1 <= t2 -> d1 <= d2 ->
  points cfg t1 d1 <= points cfg t2 d2.
Proof.
  intros Hcfg Ht Hd. unfold points.
  pose proof (base_points_pos _ Hcfg). pose proof (bonus_mono _ Hcfg _ _ Ht).
  nia.
Qed.

Lemma record_answer_ok cfg s q correct a t :
  config_ok cfg -> session_ok cfg s ->
  questions s !! current_index s = Some q ->
  session_ok cfg (record_answer cfg s correct a t).
Proof.
  intros Hcfg Hs Hq. pose proof (lookup_lt_Some _ _ _ Hq) as Hlt.
  split; cbn [record_answer difficulty_level current_index questions status
              score].
  - apply adapt_range; [done|apply Hs].
  - lia.
  - destruct (Nat.eqb_spec (S (current_index s)) (length (questions s)));
      split; intros; congruence.
  - apply Hs.
  - pose proof (score_nonneg _ _ Hs).
    destruct correct; [|done].
    pose proof (points_pos cfg t (difficulty_level s) Hcfg
                  (proj1 (level_range _ _ Hs))). lia.
Qed.

(** What a successful [start] did. *)
Lemma start_Ok cfg st u n st' r :
  start cfg st u n = Ok (st', r) ->
  let sid := fresh (dom st) in
  let session :=
    {| session_id := sid; user_id := u;
       questions := question_source cfg u (Z.to_nat n);
       current_index := 0; score := 0; difficulty_level := starting_level;
       log := []; status := ACTIVE |} in
  0 < n /\ st !! sid = None /\ sr_session_id r = sid
  /\ st' = <[sid := session]> st.
Proof.
  unfold start, require. destruct (0 <? n) eqn:Hn; [|discriminate]. cbn.
  destruct (head _) as [first|]; [|discriminate]. cbn.
  intros [= <- <-]. cbn. repeat split.
  - by apply Z.ltb_lt.
  - apply not_elem_of_dom, is_fresh.
Qed.

Lemma new_session_ok cfg sid u n :
  config_ok cfg -> 0 < n ->
  session_ok cfg
    {| session_id := sid; user_id := u;
       questions := question_source cfg u (Z.to_nat n);
       current_index := 0; score := 0; difficulty_level := starting_level;
       log := []; status := ACTIVE |}.
Proof.
  intros Hcfg Hn. split; cbn.
  - split; [done|apply Hcfg].
  - lia.
  - rewrite (source_length _ Hcfg). split; [done|lia].
  - apply Hcfg.
  - done.
Qed.

Lemma apply_call_ok cfg st c :
  config_ok cfg -> store_ok cfg st -> store_ok cfg (apply_call cfg st c).
Proof.
  intros Hcfg Hst. destruct c as [u n|sid qid a t]; cbn [apply_call].
  - destruct (start cfg st u n) as [[st' r]|e] eqn:Hs; [|done].
    apply start_Ok in Hs as (Hn & _ & _ & ->).
    apply map_Forall_insert_2; [|done]. by apply new_session_ok.
  - destruct (submitAnswer cfg st sid qid a t) as [[st' r]|e] eqn:Hs; [|done].
    apply submitAnswer_Ok in Hs as (s & q & Hl & _ & Hq & _ & -> & _).
    apply map_Forall_insert_2; [|done].
    eapply record_answer_ok; [done| |done]. by eapply Hst.
Qed.

Lemma apply_calls_ok cfg cs :
  forall st, config_ok cfg -> store_ok cfg st ->
  store_ok cfg (apply_calls cfg st cs).
Proof.
  induction cs as [|c cs IH]; intros st Hcfg Hst; [done|].
  cbn. apply IH; [done|]. by apply apply_call_ok.
Qed.

Lemma empty_store_ok cfg : store_ok cfg ∅.
Proof. apply map_Forall_empty. Qed.

(** One call, seen from an existing session: the session stays in the
    store, with the same questions; its score does not go down; and its
    position moves by one exactly when the call is an answer the engine
    accepts for it. *)
Lemma apply_call_session cfg st c sid s :
  config_ok cfg -> store_ok cfg st -> st !! sid = Some s ->
  exists s',
    apply_call cfg st c !! sid = Some s'
    /\ score s <= score s'
    /\ questions s' = questions s
    /\ current_index s'
       = (current_index s + if accepted cfg st sid c then 1 else 0)%nat.
Proof.
  intros Hcfg Hst Hs. destruct c as [u n|sid' qid a t]; cbn [apply_call accepted].
  - exists s. rewrite Nat.add_0_r.
    destruct (start cfg st u n) as [[st' r]|e] eqn:Hstart; [|by repeat split].
    apply start_Ok in Hstart as (_ & Hfresh & _ & ->).
    rewrite lookup_insert_ne by congruence. by repeat split.
  - destruct (submitAnswer cfg st sid' qid a t) as [[st' r]|e] eqn:Hsub.
    + apply submitAnswer_Ok in Hsub as (s0 & q & Hl & _ & Hq & _ & -> & _).
      case_bool_decide as Hsid; cbn.
      * subst sid'. rewrite lookup_insert_eq. eexists. split; [done|].
        assert (s0 = s) as -> by congruence.
        cbn. repeat split; [|lia].
        destruct (grade q a); [|done].
        pose proof (points_pos cfg t (difficulty_level s) Hcfg
                      (proj1 (level_range _ _ (Hst _ _ Hs)))). lia.
      * rewrite lookup_insert_ne by done. exists s.
        rewrite Nat.add_0_r. by repeat split.
    + exists s. rewrite andb_false_r, Nat.add_0_r. by repeat split.
Qed.

Lemma apply_calls_session cfg cs :
  forall st sid s,
  config_ok cfg -> store_ok cfg st -> st !! sid = Some s ->
  exists s',
    apply_calls cfg st cs !! sid = Some s'
    /\ score s <= score s'
    /\ questions s' = questions s
    /\ current_index s' = (current_index s + successes cfg st sid cs)%nat.
Proof.
  induction cs as [|c cs IH]; intros st sid s Hcfg Hst Hs.
  - exists s. cbn. rewrite Nat.add_0_r. by repeat split.
  - destruct (apply_call_session cfg st c sid s Hcfg Hst Hs)
      as (s1 & H1 & Hsc1 & Hq1 & Hi1).
    destruct (IH _ sid s1 Hcfg (apply_call_ok cfg st c Hcfg Hst) H1)
      as (s2 & H2 & Hsc2 & Hq2 & Hi2).
    exists s2. cbn [apply_calls foldl successes]. split; [exact H2|].
    split; [lia|]. split; [congruence|]. lia.
Qed.

(** C1. For a session of any store the engine reaches: the score in the
    response of an accepted answer is at least the score before the call,
    and is the score the session then has; and after any further calls the
    session is still there with a score at least as high. *)
Theorem score_non_decreasing cfg calls calls' sid s :
  config_ok cfg ->
  let st := apply_calls cfg ∅ calls in
  st !! sid = Some s ->
  (forall qid a t st' r,
     submitAnswer cfg st sid qid a t = Ok (st', r) ->
     score s <= ar_score r
     /\ exists s', st' !! sid = Some s' /\ score s' = ar_score r)
  /\ (exists s',
        apply_calls cfg st calls' !! sid = Some s' /\ score s <= score s').
Proof.
  intros Hcfg st Hs.
  assert (Hst : store_ok cfg st) by (apply apply_calls_ok, empty_store_ok; done).
  split.
  - intros qid a t st' r Hsub.
    destruct (apply_call_session cfg st (CallSubmit sid qid a t) sid s
                Hcfg Hst Hs) as (s' & Hl & Hsc & _).
    cbn [apply_call] in Hl. rewrite Hsub in Hl.
    apply submitAnswer_Ok in Hsub as (s0 & q & Hl0 & _ & _ & _ & -> & ->).
    rewrite lookup_insert_eq in Hl. injection Hl as <-.
    split; [exact Hsc|]. eexists. by rewrite lookup_insert_eq.
  - destruct (apply_calls_session cfg calls' st sid s Hcfg Hst Hs)
      as (s' & Hl & Hsc & _).
    eauto.
Qed.

(** C2. A session started with [total_questions] questions is COMPLETE
    exactly when [total_questions] answers have been accepted for it; from
    then on every [submitAnswer] on it fails with [SessionNotFound] and
    leaves the store as it is. *)
Theorem complete_after_all_answers cfg calls0 u n st1 r0 calls :
  config_ok cfg ->
  start cfg (apply_calls cfg ∅ calls0) u n = Ok (st1, r0) ->
  let sid := sr_session_id r0 in
  let st := apply_calls cfg st1 calls in
  (exists s,
     st !! sid = Some s
     /\ (status s = COMPLETE <-> successes cfg st1 sid calls = Z.to_nat n))
  /\ (successes cfg st1 sid calls = Z.to_nat n ->
      forall qid a t,
        submitAnswer cfg st sid qid a t = Err SessionNotFound
        /\ apply_call cfg st (CallSubmit sid qid a t) = st).
Proof.
  intros Hcfg Hstart sid st.
  assert (H1 : store_ok cfg st1).
  { pose proof (apply_call_ok cfg (apply_calls cfg ∅ calls0) (CallStart u n)
                  Hcfg) as H.
    cbn [apply_call] in H. rewrite Hstart in H.
    apply H, apply_calls_ok, empty_store_ok. done. }
  destruct (start_Ok _ _ _ _ _ _ Hstart) as (Hn & _ & Hsid & Hst1).
  cbn zeta in Hsid, Hst1. rewrite <- Hsid in Hst1. fold sid in Hst1.
  match type of Hst1 with _ = <[_ := ?s0]> _ =>
    assert (Hl1 : st1 !! sid = Some s0)
      by (rewrite Hst1; apply lookup_insert_eq)
  end.
  destruct (apply_calls_session cfg calls st1 sid _ Hcfg H1 Hl1)
    as (s & Hl & _ & Hq & Hi).
  cbn [questions current_index] in Hq, Hi. fold st in Hl.
  assert (Hs : session_ok cfg s).
  { eapply (apply_calls_ok cfg calls _ Hcfg H1). exact Hl. }
  assert (Hiff : status s = COMPLETE
                 <-> successes cfg st1 sid calls = Z.to_nat n).
  { rewrite (status_index _ _ Hs), Hq, (source_length _ Hcfg), Hi. done. }
  split; [eauto|].
  intros Hn' qid a t. apply Hiff in Hn'.
  pose proof (submitAnswer_complete cfg st sid qid a t s Hl Hn') as He.
  split; [exact He|]. cbn [apply_call]. by rewrite He.
Qed.

(** C3. An accepted answer was to the current question of the session.  It
    is graded correct exactly when [answer_index] is the question's
    [correct_index]; the timeout sentinel is graded incorrect; an incorrect
    answer leaves the score as it is; a correct one adds the points for the
    time left and the current difficulty level, which are strictly
    positive; and the points grow with the time left and with the level. *)
Theorem grading cfg calls sid s qid a t st' r :
  config_ok cfg ->
  let st := apply_calls cfg ∅ calls in
  st !! sid = Some s ->
  submitAnswer cfg st sid qid a t = Ok (st', r) ->
  exists q,
    questions s !! current_index s = Some q /\ q_id q = qid
    /\ (ar_correct r = true <-> a = correct_index q)
    /\ (a = TIMEOUT_SENTINEL -> ar_correct r = false /\ ar_score r = score s)
    /\ (ar_correct r = false -> ar_score r = score s)
    /\ (ar_correct r = true ->
        ar_score r = score s + points cfg t (difficulty_level s)
        /\ 0 < points cfg t (difficulty_level s))
    /\ (forall t1 t2 d1 d2, t1 <= t2 -> d1 <= d2 ->
        points cfg t1 d1 <= points cfg t2 d2).
Proof.
  intros Hcfg st Hs Hsub.
  assert (Hst : store_ok cfg st) by (apply apply_calls_ok, empty_store_ok; done).
  apply submitAnswer_Ok in Hsub as (s0 & q & Hl & _ & Hq & Hid & -> & ->).
  assert (s0 = s) as -> by congruence.
  pose proof (Hst _ _ Hs) as Hok.
  assert (Hqok : question_ok q).
  { eapply Forall_lookup_1; [apply (questions_ok _ _ Hok)|exact Hq]. }
  exists q. split; [done|]. split; [done|].
  cbn [answer_result record_answer ar_correct ar_score score].
  assert (Hg : grade q a = true <-> a = correct_index q).
  { unfold grade, TIMEOUT_SENTINEL. unfold question_ok in Hqok.
    destruct (Z.eqb_spec a (-1)) as [->|Hne].
    - split; [done|lia].
    - apply Z.eqb_eq. }
  split; [exact Hg|]. split; [|split; [|split]].
  - intros ->. unfold grade. cbn. done.
  - by intros ->.
  - intros ->. split; [done|]. apply points_pos; [done|apply Hok].
  - intros. by apply points_mono.
Qed.

(** ** The theorems at work on the sample configuration *)

Lemma sample_config_ok : config_ok sample_config.
Proof.
  split; cbn; try done; try lia.
  - intros _ n. by rewrite length_fmap, length_seq.
  - intros _ n. apply Forall_fmap, Forall_forall. intros i _.
    unfold question_ok. cbn. lia.
Qed.

Lemma score_non_decreasing_witness :
  let cfg := sample_config in
  let st := apply_calls cfg ∅ [CallStart None 2] in
  config_ok cfg
  /\ st !! "0"%string = Some sample_session
  /\ exists s',
       apply_calls cfg st sample_calls !! "0"%string = Some s'
       /\ score sample_session <= score s'.
Proof.
  intros cfg st.
  assert (H : st !! "0"%string = Some sample_session)
    by (vm_compute; reflexivity).
  split; [exact sample_config_ok|]. split; [exact H|].
  exact (proj2 (score_non_decreasing cfg [CallStart None 2] sample_calls
                  "0"%string sample_session sample_config_ok H)).
Defined.

Lemma complete_after_all_answers_witness :
  let cfg := sample_config in
  exists st1 r0,
    config_ok cfg
    /\ start cfg (apply_calls cfg ∅ []) None 2 = Ok (st1, r0)
    /\ sr_session_id r0 = "0"%string
    /\ successes cfg st1 "0" sample_calls = Z.to_nat 2
    /\ forall qid a t,
         submitAnswer cfg (apply_calls cfg st1 sample_calls) "0" qid a t
         = Err SessionNotFound
         /\ apply_call cfg (apply_calls cfg st1 sample_calls)
              (CallSubmit "0" qid a t)
            = apply_calls cfg st1 sample_calls.
Proof.
  intros cfg.
  destruct (start cfg (apply_calls cfg ∅ []) None 2) as [[st1 r0]|e] eqn:Hs;
    [|vm_compute in Hs; discriminate Hs].
  exists st1, r0.
  assert (Hsid : sr_session_id r0 = "0"%string).
  { vm_compute in Hs. injection Hs as _ <-. reflexivity. }
  assert (Hn : successes cfg st1 "0" sample_calls = Z.to_nat 2).
  { vm_compute in Hs. injection Hs as <- _. vm_compute. reflexivity. }
  split; [exact sample_config_ok|]. split; [reflexivity|].
  split; [exact Hsid|]. split; [exact Hn|].
  pose proof (proj2 (complete_after_all_answers cfg [] None 2 st1 r0
                       sample_calls sample_config_ok Hs)) as H.
  cbn zeta in H. rewrite Hsid in H. exact (H Hn).
Defined.

Lemma grading_witness :
  let cfg := sample_config in
  let st := apply_calls cfg ∅ [CallStart None 2] in
  exists st' r,
    config_ok cfg
    /\ st !! "0"%string = Some sample_session
    /\ submitAnswer cfg st "0" "0" 2 20 = Ok (st', r)
    /\ ar_correct r = true
    /\ ar_score r = 30.
Proof.
  intros cfg st.
  assert (H : st !! "0"%string = Some sample_session)
    by (vm_compute; reflexivity).
  destruct (submitAnswer cfg st "0" "0" 2 20) as [[st' r]|e] eqn:Hs;
    [|vm_compute in Hs; discriminate Hs].
  exists st', r.
  split; [exact sample_config_ok|]. split; [exact H|]. split; [reflexivity|].
  destruct (grading cfg [CallStart None 2] "0"%string sample_session
              "0"%string 2 20 st' r sample_config_ok H Hs)
    as (q & Hq & _ & Hc & _ & _ & Hp & _).
  assert (Hq' : numbered 0 = q)
    by (vm_compute in Hq; injection Hq as <-; vm_compute; reflexivity).
  subst q.
  assert (Hcorrect : ar_correct r = true) by (apply Hc; reflexivity).
  split; [exact Hcorrect|]. by destruct (Hp Hcorrect) as [-> _].
Defined.

End EngineFacts.

(** * More facts about the quiz page *)

Module ClientExtra.
Import Client ClientFacts.

Lemma submit_target_same a b :
  sessionId a = sessionId b -> question a = question b ->
  isAnswered a = isAnswered b -> submit_target a = submit_target b.
Proof. unfold submit_target. by intros -> -> ->. Qed.

Lemma settle_clock prev w :
  0 <= timeLeft (comp w) <= 30 ->
  (deps_eqb prev (comp w) = true -> timeLeft (comp w) = 0 ->
   isAnswered (comp w) = false -> submit_target (comp w) = None) ->
  clock_ok (comp (settle prev w).1).
Proof.
  intros Hb Hs.
  destruct (settle_cases prev w)
    as [[Hd ->]|[(Hd & Hn & Hk & ->)|[(Hd & He & ->)|(sid & q & Hd & Hk & He & Ht & ->)]]];
    cbn [fst comp set_timer]; split; try done; auto.
  - intros H0 Ha. unfold expired in He. rewrite H0, Ha in He. cbn in He.
    apply bool_decide_eq_false in He. unfold submit_target.
    destruct (question (comp w)); [|done]. destruct He. eauto.
Qed.

Lemma handle_clock t w :
  clock_ok (comp w) ->
  0 <= timeLeft (exec t (comp w) (win w)).1.1 <= 30 ->
  (timeLeft (exec t (comp w) (win w)).1.1 = 30
   \/ sessionId (exec t (comp w) (win w)).1.1 = sessionId (comp w)) ->
  clock_ok (comp (handle t w).1).
Proof.
  intros [_ Hc] Hb Hs. rewrite handle_eq. cbn [fst].
  apply settle_clock; unfold batched; cbn [comp]; [done|].
  intros (Ht & Ha & _ & Hq)%deps_eqb_true H0 Hna.
  destruct Hs as [H30|Hsid]; [lia|].
  rewrite <- (Hc ltac:(lia) ltac:(congruence)).
  by apply submit_target_same.
Qed.

Lemma graded_sessionId data s : sessionId (graded data s) = sessionId s.
Proof.
  unfold graded.
  destruct (difficulty_level data) as [d|]; [destruct (truthy_number d)|];
    by destruct (quiz_complete data).
Qed.

Lemma graded_timeLeft data s : timeLeft (graded data s) = timeLeft s.
Proof.
  unfold graded.
  destruct (difficulty_level data) as [d|]; [destruct (truthy_number d)|];
    by destruct (quiz_complete data).
Qed.

Lemma step_clock w e :
  Inv w -> clock_ok (comp w) -> clock_ok (comp (step w e).1).
Proof.
  intros HInv Hc. pose proof Hc as [Hb _].
  event_cases w e HInv; cbn [fst]; try done;
    apply handle_clock; cbn [comp win set_userData set_timer]; try done;
    try (right; reflexivity); try (left; reflexivity).
  - cbn. destruct HInv as [Ht _]. unfold timer_ok in Ht.
    destruct (ticking (comp w)) eqn:Hk; [|congruence].
    assert (z = timeLeft (comp w)) as -> by congruence.
    unfold ticking in Hk. apply andb_true_iff in Hk as [Hk _].
    apply andb_true_iff in Hk as [Hk%Z.ltb_lt _]. lia.
  - rewrite exec_handleAnswerSelect.
    by destruct (submit_target (comp w)) as [[sid q]|].
  - rewrite exec_handleAnswerSelect. right.
    by destruct (submit_target (comp w)) as [[sid q]|].
  - unfold nextQuestion. by destruct (__nextQuestion (win w)).
  - unfold nextQuestion. destruct (__nextQuestion (win w)); [by left|by right].
  - erewrite exec_handleAnswerSelect_k by done.
    destruct (quiz_complete data); cbn [fst]; by rewrite graded_timeLeft.
  - erewrite exec_handleAnswerSelect_k by done. right.
    destruct (quiz_complete data); cbn [fst]; by rewrite graded_sessionId.
  - erewrite exec_handleTimeout_k by done.
    destruct (quiz_complete data); cbn [fst]; by rewrite graded_timeLeft.
  - erewrite exec_handleTimeout_k by done. right.
    destruct (quiz_complete data); cbn [fst]; by rewrite graded_sessionId.
Qed.

Lemma run_clock es :
  forall w, Inv w -> clock_ok (comp w) -> clock_ok (comp (run w es).1).
Proof.
  induction es as [|e es IH]; intros w Hw Hc; [done|].
  cbn [run]. pose proof (step_inv w e Hw) as H1.
  pose proof (step_clock w e Hw Hc) as H2.
  destruct (step w e) as [w1 r1]. specialize (IH w1 H1 H2).
  by destruct (run w1 es).
Qed.

Lemma session_clock ud es : clock_ok (comp (session ud es).1).
Proof.
  rewrite session_world. apply run_clock; [apply mount_inv|].
  rewrite mount_eq. split; cbn; [lia|discriminate].
Qed.

(** X1. In every state the page reaches the countdown is between 0 and 30,
    and the one-second timer is armed exactly while the countdown runs
    (time left, not answered, quiz not complete), with the current
    [timeLeft] in its callback. *)
Theorem countdown_bounds_and_timer ud es :
  let w := (session ud es).1 in
  0 <= timeLeft (comp w) <= 30
  /\ timer w = if ticking (comp w) then Some (timeLeft (comp w)) else None.
Proof.
  intros w. split; [apply session_clock|apply session_inv].
Qed.

Lemma graded_quizComplete data s :
  quizComplete s = true -> quizComplete (graded data s) = true.
Proof.
  unfold graded.
  destruct (difficulty_level data) as [d|]; [destruct (truthy_number d)|];
    by destruct (quiz_complete data).
Qed.

Lemma step_quizComplete w e :
  Inv w -> quizComplete (comp w) = true ->
  quizComplete (comp (step w e).1) = true.
Proof.
  intros HInv Hq. event_cases w e HInv; cbn [fst]; try done;
    match goal with
    | |- context [handle ?t ?w0] =>
        destruct (handle_frame t w0) as (_&_&_&_&_&_&->&_)
    end; cbn [comp win]; try done.
  - rewrite exec_handleAnswerSelect.
    by destruct (submit_target (comp w)) as [[sid q]|].
  - unfold nextQuestion. by destruct (__nextQuestion (win w)).
  - erewrite exec_handleAnswerSelect_k by done.
    destruct (quiz_complete data); cbn [fst]; by apply graded_quizComplete.
  - erewrite exec_handleTimeout_k by done.
    destruct (quiz_complete data); cbn [fst]; by apply graded_quizComplete.
Qed.

Lemma run_quizComplete es :
  forall w, Inv w -> quizComplete (comp w) = true ->
  Inv (run w es).1 /\ quizComplete (comp (run w es).1) = true.
Proof.
  induction es as [|e es IH]; intros w Hw Hq; [done|].
  cbn [run]. pose proof (step_inv w e Hw) as H1.
  pose proof (step_quizComplete w e Hw Hq) as H2.
  destruct (step w e) as [w1 r1]. specialize (IH w1 H1 H2).
  by destruct (run w1 es).
Qed.

(** X2. Completion is final: once [quizComplete] is set, whatever happens
    next (responses, clicks, a new start after a change of [userData]) it
    stays set, the countdown timer is never armed again, and the page shows
    the loading line or the completion screen. *)
Theorem quiz_complete_is_final ud es es' :
  let w := (session ud es).1 in
  quizComplete (comp w) = true ->
  let w' := (run w es').1 in
  quizComplete (comp w') = true
  /\ timer w' = None
  /\ (render (comp w') (win w') = LoadingView
      \/ render (comp w') (win w') = CompleteView (score (comp w'))).
Proof.
  intros w Hq w'.
  destruct (run_quizComplete es' w (session_inv ud es) Hq) as [[Ht _] Hq'].
  fold w' in Ht, Hq'. split; [done|]. split.
  - unfold timer_ok, ticking in Ht. rewrite Hq' in Ht.
    by rewrite andb_false_r in Ht.
  - unfold render. rewrite Hq'. destruct (loading (comp w')); auto.
Qed.

Lemma quiz_complete_is_final_witness :
  let w := (session None sample_quiz).1 in
  let w' := (run w [EvClickNext; EvTick; EvClickOption 0]).1 in
  quizComplete (comp w) = true
  /\ quizComplete (comp w') = true
  /\ timer w' = None
  /\ (render (comp w') (win w') = LoadingView
      \/ render (comp w') (win w') = CompleteView (score (comp w'))).
Proof.
  intros w w'.
  assert (H : quizComplete (comp w) = true) by (vm_compute; reflexivity).
  split; [exact H|].
  exact (quiz_complete_is_final None sample_quiz
           [EvClickNext; EvTick; EvClickOption 0] H).
Defined.

Lemma handle_Ret w : handle Ret w = (w, []).
Proof.
  rewrite handle_eq. unfold batched, settle. cbn [exec fst snd comp option_list].
  rewrite deps_eqb_refl, app_nil_r. by destruct w.
Qed.

(** X3. A failed answer request (rejected [fetch] or unparsable body) is
    only logged: the request leaves the list of those in flight, and the
    state, the [window] globals and the timer stay as they are; nothing is
    sent. *)
Theorem failed_answer_changes_nothing ud es n req k :
  let w := (session ud es).1 in
  inflight w !! n = Some (PendAnswer req k) ->
  step w (EvResponse n (AnswerJson None)) = (settled n w, []).
Proof.
  intros w Hn. pose proof (session_inv ud es) as HInv. fold w in HInv.
  cbn [step]. rewrite Hn.
  pose proof (Forall_lookup_1 _ _ _ _ (proj2 HInv) Hn) as Hp.
  inversion Hp; subst; cbn [resume handleAnswerSelect_k handleTimeout_k];
    apply handle_Ret.
Qed.

Lemma failed_answer_changes_nothing_witness :
  let w := (session None (take 3 sample_first_question)).1 in
  (exists req k, inflight w !! 0%nat = Some (PendAnswer req k))
  /\ step w (EvResponse 0 (AnswerJson None)) = (settled 0 w, []).
Proof.
  intros w.
  destruct (inflight w !! 0%nat) as [[req k|req k|req k]|] eqn:Hn;
    try (vm_compute in Hn; discriminate Hn).
  split; [by exists req, k|].
  exact (failed_answer_changes_nothing None (take 3 sample_first_question)
           0%nat req k Hn).
Defined.

Lemma settle_inflight prev w i p :
  inflight w !! i = Some p -> inflight (settle prev w).1 !! i = Some p.
Proof.
  intros Hi.
  destruct (settle_cases prev w)
    as [[Hd ->]|[(Hd & Hn & Hk & ->)|[(Hd & He & ->)|(sid & q & Hd & Hk & He & Hs & ->)]]];
    cbn [fst inflight set_timer]; try done.
  by apply lookup_app_l_Some.
Qed.

(** X4. The correct index of the answer that completes the quiz is written
    late.  Handling the answer response with [quiz_complete] leaves the
    [window] globals as they are and puts the completion request in flight;
    whenever that request ends, successfully or not, the page writes the
    [correct_index] of that response to [window.__lastCorrectIndex], and
    does nothing else: the state and the timer stay as they are and nothing
    is sent. *)
Theorem completion_end_only_records_index ud es n req k data :
  let w := (session ud es).1 in
  inflight w !! n = Some (PendAnswer req k) ->
  quiz_complete data = true ->
  let w1 := (step w (EvResponse n (AnswerJson (Some data)))).1 in
  win w1 = win w
  /\ exists p m sid,
       inflight w1 !! m = Some p
       /\ pending_request p = PostComplete sid (ar_score data) 1 10
       /\ forall w' m' ok,
            inflight w' !! m' = Some p ->
            step w' (EvResponse m' (CompleteDone ok))
            = ({| userData := userData w'; comp := comp w';
                  win := apply_window
                           (set__lastCorrectIndex (correct_index data))
                           (win w');
                  timer := timer w';
                  inflight := delete m' (inflight w') |}, []).
Proof.
  intros w Hn Hq w1. pose proof (session_inv ud es) as HInv. fold w in HInv.
  pose proof (Forall_lookup_1 _ _ _ _ (proj2 HInv) Hn) as Hp.
  assert (He : exists sid t,
            resume (PendAnswer req k) (AnswerJson (Some data)) = Some t
            /\ forall s g,
                 exec t s g
                 = (graded data s, g,
                    Some (PendComplete (PostComplete sid (ar_score data) 1 10)
                            (fun _ => (set__lastCorrectIndex
                                         (correct_index data) ;; Ret)%task)))).
  { inversion Hp; subst; exists sid; eexists; (split; [reflexivity|]);
      intros s g.
    - erewrite exec_handleAnswerSelect_k by done. by rewrite Hq.
    - erewrite exec_handleTimeout_k by done. by rewrite Hq. }
  destruct He as (sid & t & Hr & Hex).
  assert (Hw1 : w1 = (handle t (settled n w)).1).
  { unfold w1. cbn [step]. by rewrite Hn, Hr. }
  split.
  - rewrite Hw1. destruct (handle_frame t (settled n w)) as (-> & _).
    by rewrite Hex.
  - exists (PendComplete (PostComplete sid (ar_score data) 1 10)
              (fun _ => (set__lastCorrectIndex (correct_index data) ;; Ret)%task)),
      (length (delete n (inflight w))), sid.
    split; [|split; [reflexivity|]].
    + rewrite Hw1, handle_eq. cbn [fst]. apply settle_inflight.
      unfold batched. rewrite Hex. cbn [inflight settled snd option_list].
      by apply list_lookup_middle.
    + intros w' m' ok Hm. cbn [step]. rewrite Hm. cbn [resume].
      rewrite handle_eq. unfold batched, settle.
      cbn [exec fst snd comp win option_list apply_state inflight userData
           timer].
      by rewrite deps_eqb_refl, app_nil_r.
Qed.

Lemma completion_end_only_records_index_witness :
  let w := (session None sample_second_question).1 in
  let w1 := (step w (EvResponse 0 (AnswerJson (Some sample_answer2)))).1 in
  (exists req k, inflight w !! 0%nat = Some (PendAnswer req k))
  /\ quiz_complete sample_answer2 = true
  /\ win w1 = win w
  /\ exists m,
       (step w1 (EvResponse m (CompleteDone false))).2 = []
       /\ __lastCorrectIndex
            (win (step w1 (EvResponse m (CompleteDone false))).1)
          = Some (correct_index sample_answer2).
Proof.
  intros w w1.
  destruct (inflight w !! 0%nat) as [[req k|req k|req k]|] eqn:Hn;
    try (vm_compute in Hn; discriminate Hn).
  assert (Hq : quiz_complete sample_answer2 = true) by reflexivity.
  destruct (completion_end_only_records_index
              None sample_second_question 0%nat req k sample_answer2 Hn Hq)
    as (Hw & p & m & sid & Hm & _ & Hend).
  split; [by exists req, k|]. split; [exact Hq|]. split; [exact Hw|].
  exists m. pose proof (Hend _ m false Hm) as H. fold w w1 in H.
  rewrite H. split; reflexivity.
Defined.

(** An answer request sent by the renders after a batch is the timeout
    submission for the state the batch left. *)
Lemma settle_answer_request prev w sid qid a t :
  PostAnswer sid qid a t ∈ (settle prev w).2 ->
  a = -1 /\ t = 0 /\ timeLeft (comp w) = 0 /\ isAnswered (comp w) = false
  /\ exists q, submit_target (comp w) = Some (sid, q) /\ q_id q = qid.
Proof.
  destruct (settle_cases prev w)
    as [[Hd ->]|[(Hd & Hn & Hk & ->)|[(Hd & He & ->)|(sid' & q & Hd & Hk & He & Ht & ->)]]];
    cbn [snd]; try by intros ?%not_elem_of_nil.
  intros [= -> -> -> ->]%list_elem_of_singleton.
  unfold expired in He. apply andb_true_iff in He as [He _].
  apply andb_true_iff in He as [H0%Z.eqb_eq Ha%negb_true_iff].
  repeat split; try done. by exists q.
Qed.

Lemma graded_submit_target data s :
  submit_target (graded data s) = submit_target s.
Proof.
  apply submit_target_same;
    [apply graded_sessionId|apply graded_question|apply graded_isAnswered].
Qed.

(** Every event is ignored or runs one batch, of one of four kinds. *)
Lemma step_batch w e :
  Inv w ->
  step w e = (w, [])
  \/ exists t w0,
       step w e = handle t w0 /\ comp w0 = comp w /\ win w0 = win w
       /\ batch_kind e (comp w) (exec t (comp w) (win w)).1.1
            (pending_request <$> option_list (exec t (comp w) (win w)).2).
Proof.
  intros HInv. event_cases w e HInv; try (by left); right;
    eexists _, _; (split; [reflexivity|]); (split; [reflexivity|]);
    (split; [reflexivity|]).
  - by apply bk_plain.
  - destruct HInv as [Ht _]. unfold timer_ok in Ht.
    destruct (ticking (comp w)) eqn:Hk; [|congruence].
    assert (z = timeLeft (comp w)) as -> by congruence.
    unfold ticking in Hk. apply andb_true_iff in Hk as [Hk _].
    apply andb_true_iff in Hk as [Hk%Z.ltb_lt _].
    by apply bk_ticked.
  - rewrite exec_handleAnswerSelect.
    destruct (submit_target (comp w)) as [[sid q]|] eqn:Hs.
    + by eapply bk_clicked.
    + by apply bk_plain.
  - unfold nextQuestion. destruct (__nextQuestion (win w)).
    + by apply bk_reset.
    + by apply bk_plain.
  - by apply bk_reset.
  - by apply bk_plain.
  - erewrite exec_handleAnswerSelect_k by done.
    destruct (quiz_complete data); cbn [fst snd];
      apply bk_plain; auto using graded_timeLeft, graded_isAnswered,
                                  graded_submit_target.
  - by apply bk_plain.
  - erewrite exec_handleTimeout_k by done.
    destruct (quiz_complete data); cbn [fst snd];
      apply bk_plain; auto using graded_timeLeft, graded_isAnswered,
                                  graded_submit_target.
  - by apply bk_plain.
  - by apply bk_plain.
Qed.

(** Where an answer request can come from. *)
Lemma step_answer_request w e sid qid a t :
  Inv w -> clock_ok (comp w) ->
  PostAnswer sid qid a t ∈ (step w e).2 ->
  (exists q, submit_target (comp w) = Some (sid, q) /\ q_id q = qid)
  /\ ((e = EvTick /\ a = -1 /\ t = 0 /\ timeLeft (comp w) = 1)
      \/ (e = EvClickOption a /\ t = timeLeft (comp w) /\ 1 <= t <= 30)).
Proof.
  intros HInv [Hb Hc].
  destruct (step_batch w e HInv) as [->|(t0 & w0 & -> & Hcomp & Hwin & Hk)];
    [by intros ?%not_elem_of_nil|].
  rewrite handle_eq, Hcomp, Hwin. cbn [snd]. unfold batched.
  rewrite Hcomp, Hwin.
  set (s := (exec t0 (comp w) (win w)).1.1) in *.
  set (reqs := pending_request <$> option_list (exec t0 (comp w) (win w)).2) in *.
  intros [Hin|Hin]%elem_of_app.
  - (* sent by the batch itself: an option was clicked *)
    assert (Ha : PostAnswer sid qid a t ∈ answers reqs).
    { unfold answers. apply list_elem_of_filter. by split. }
    destruct Hk as [_ _ _ Hr|_ Hr|_ _ _ Hr|i sid' q -> Hs _ Hr];
      try (rewrite Hr in Ha; by apply not_elem_of_nil in Ha).
    rewrite Hr in Hin.
    apply list_elem_of_singleton in Hin as [= -> -> -> ->].
    split; [by exists q|]. right. split; [done|]. split; [done|].
    destruct (submit_target_Some _ _ _ Hs) as (_&_&_&Hna).
    destruct (Z.eq_dec (timeLeft (comp w)) 0) as [H0|H0]; [|lia].
    rewrite (Hc H0 Hna) in Hs. discriminate.
  - (* sent by the renders that follow: the countdown reached 0 *)
    apply settle_answer_request in Hin
      as (-> & -> & H0 & Hna & q & Hq & Hid). cbn [comp] in *.
    destruct Hk as [Ht Hi Hs _ | Ht _ | He Hpos Hs _ | i sid2 q2 _ _ Hs _].
    + rewrite Hs, Hc in Hq; congruence.
    + lia.
    + subst e. rewrite Hs in H0, Hna, Hq. cbn in H0, Hna. split.
      * exists q. split; [|done]. rewrite <- Hq. by apply submit_target_same.
      * left. repeat split; try done. lia.
    + rewrite Hs in Hna. discriminate Hna.
Qed.

(** X5. Every answer request the page sends carries the session id and the
    id of the question it holds, and the answered flag was down when it was
    sent.  It is either the timeout submission, sent by the tick that takes
    the countdown from 1 to 0, with [answer_index = -1] and
    [time_left = 0]; or the submission of the option clicked, with the
    countdown as [time_left], which is then between 1 and 30: a click is
    never submitted with no time left. *)
Theorem answer_request_origin ud es e sid qid a t :
  let w := (session ud es).1 in
  PostAnswer sid qid a t ∈ (step w e).2 ->
  sessionId (comp w) = Some sid /\ truthy_string sid = true
  /\ isAnswered (comp w) = false
  /\ (exists q, question (comp w) = Some q /\ q_id q = qid)
  /\ ((e = EvTick /\ a = -1 /\ t = 0 /\ timeLeft (comp w) = 1)
      \/ (e = EvClickOption a /\ t = timeLeft (comp w) /\ 1 <= t <= 30)).
Proof.
  intros w Hin.
  destruct (step_answer_request w e sid qid a t (session_inv ud es)
              (session_clock ud es) Hin) as [(q & Hq & Hid) Hor].
  destruct (submit_target_Some _ _ _ Hq) as (? & ? & ? & ?).
  repeat split; try done. by exists q.
Qed.

Lemma answer_request_origin_witness :
  let w := (session None (take 2 sample_first_question)).1 in
  PostAnswer "s1" "q1" 2 29 ∈ (step w (EvClickOption 2)).2
  /\ sessionId (comp w) = Some "s1"%string
  /\ (exists q, question (comp w) = Some q /\ q_id q = "q1"%string).
Proof.
  intros w.
  assert (H : PostAnswer "s1" "q1" 2 29 ∈ (step w (EvClickOption 2)).2).
  { replace (step w (EvClickOption 2)).2 with [PostAnswer "s1" "q1" 2 29]
      by (vm_compute; reflexivity).
    apply list_elem_of_singleton. reflexivity. }
  destruct (answer_request_origin None (take 2 sample_first_question)
              (EvClickOption 2) "s1" "q1" 2 29 H) as (H1 & _ & _ & H2 & _).
  split; [exact H|]. split; [exact H1|exact H2].
Defined.

(** X6. While the guard of the handlers is closed (a question already
    answered, no question loaded, or no session id), no event whatever
    makes the page send an answer request. *)
Theorem closed_guard_sends_no_answer ud es e :
  let w := (session ud es).1 in
  submit_target (comp w) = None -> answers (step w e).2 = [].
Proof.
  intros w Hs.
  destruct (answers (step w e).2) as [|r rs] eqn:Ha; [done|].
  assert (Hin : r ∈ answers (step w e).2) by (rewrite Ha; left).
  unfold answers in Hin. apply list_elem_of_filter in Hin as [Hr Hin].
  destruct r as [| sid qid a t |]; try discriminate Hr.
  destruct (step_answer_request w e sid qid a t (session_inv ud es)
              (session_clock ud es) Hin) as [(q & Hq & _) _].
  fold w in Hq. congruence.
Qed.

Lemma closed_guard_sends_no_answer_witness :
  let w := (session None []).1 in
  submit_target (comp w) = None /\ answers (step w (EvClickOption 1)).2 = [].
Proof.
  intros w.
  assert (H : submit_target (comp w) = None) by (vm_compute; reflexivity).
  split; [exact H|].
  exact (closed_guard_sends_no_answer None [] (EvClickOption 1) H).
Defined.

Lemma run_cons w e es :
  run w (e :: es)
  = ((run (step w e).1 es).1, (step w e).2 ++ (run (step w e).1 es).2).
Proof.
  cbn [run]. destruct (step w e) as [w1 r1]. cbn [fst snd].
  by destruct (run w1 es).
Qed.

Lemma settle_quiet prev w : expired (comp w) = false -> (settle prev w).2 = [].
Proof.
  intros He.
  destruct (settle_cases prev w)
    as [[Hd ->]|[(Hd & Hn & Hk & ->)|[(Hd & _ & ->)|(sid & q & Hd & Hk & He' & Hs & ->)]]];
    try done. congruence.
Qed.

(** The state [nextQuestion] leaves when [window.__nextQuestion] holds
    [nextQ]. *)
Lemma next_click_step w nextQ :
  __nextQuestion (win w) = Some nextQ ->
  let s := apply_state (setTimeLeft 30)
             (apply_state (setIsTimeout false)
                (apply_state (setIsAnswered false)
                   (apply_state (setSelectedAnswer None)
                      (apply_state (setQuestion (Some nextQ)) (comp w))))) in
  comp (step w EvClickNext).1 = s
  /\ win (step w EvClickNext).1 = win w
  /\ (step w EvClickNext).2 = [].
Proof.
  intros Hn s. cbn [step]. rewrite handle_eq. cbn [fst snd].
  unfold batched, nextQuestion. rewrite Hn.
  cbn [exec fst snd option_list fmap list_fmap app apply_window].
  fold s. split; [|split].
  - by apply settle_not_expired.
  - match goal with |- context [settle ?a ?b] =>
      by destruct (settle_frame a b) as (-> & _)
    end.
  - by apply settle_quiet.
Qed.

(** The submission of a clicked option, when the guard is open. *)
Lemma click_option_step w sid q index :
  submit_target (comp w) = Some (sid, q) ->
  comp (step w (EvClickOption index)).1 = selected index (comp w)
  /\ win (step w (EvClickOption index)).1 = win w
  /\ (step w (EvClickOption index)).2
     = [PostAnswer sid (q_id q) index (timeLeft (comp w))].
Proof.
  intros Hs. cbn [step]. rewrite handle_eq. cbn [fst snd].
  unfold batched. rewrite exec_handleAnswerSelect, Hs.
  cbn [fst snd option_list fmap list_fmap].
  assert (He : expired (selected index (comp w)) = false).
  { unfold expired, selected. cbn. by rewrite andb_false_r. }
  split; [|split].
  - by apply settle_not_expired.
  - match goal with |- context [settle ?a ?b] =>
      by destruct (settle_frame a b) as (-> & _)
    end.
  - rewrite settle_quiet by done. reflexivity.
Qed.

(** X7. The "Next Question" button does not wait for the answer response,
    because [window.__nextQuestion] is never cleared.  Once it holds a
    question: show it, answer it, and the button is there at once; clicking
    it shows the same question again, unanswered, and a second answer goes
    out for the same question id.  Exactly these two answer requests are
    sent. *)
Theorem stale_next_question_allows_resubmission ud es sid nextQ i j :
  let w := (session ud es).1 in
  __nextQuestion (win w) = Some nextQ ->
  sessionId (comp w) = Some sid -> truthy_string sid = true ->
  let w2 := (run w [EvClickNext; EvClickOption i]).1 in
  (run w [EvClickNext; EvClickOption i; EvClickNext; EvClickOption j]).2
  = [PostAnswer sid (q_id nextQ) i 30; PostAnswer sid (q_id nextQ) j 30]
  /\ (loading (comp w) = false -> quizComplete (comp w) = false ->
      exists sc tl d vs tb,
        render (comp w2) (win w2)
        = QuestionView nextQ sc tl d vs true tb NextButton).
Proof.
  intros w Hn Hsid Htr w2.
  destruct (next_click_step w nextQ Hn) as (Hc1 & Hw1 & Hr1). cbn zeta in Hc1.
  set (w1 := (step w EvClickNext).1) in *.
  assert (Ht1 : submit_target (comp w1) = Some (sid, nextQ)).
  { rewrite Hc1. unfold submit_target. cbn. by rewrite Hsid, Htr. }
  destruct (click_option_step w1 sid nextQ i Ht1) as (Hc2 & Hw2 & Hr2).
  assert (Hw2' : w2 = (step w1 (EvClickOption i)).1).
  { unfold w2. by rewrite !run_cons. }
  rewrite <- Hw2' in *.
  assert (Hn2 : __nextQuestion (win w2) = Some nextQ) by congruence.
  destruct (next_click_step w2 nextQ Hn2) as (Hc3 & Hw3 & Hr3). cbn zeta in Hc3.
  set (w3 := (step w2 EvClickNext).1) in *.
  assert (Ht3 : submit_target (comp w3) = Some (sid, nextQ)).
  { rewrite Hc3, Hc2, Hc1. unfold submit_target. cbn. by rewrite Hsid, Htr. }
  destruct (click_option_step w3 sid nextQ j Ht3) as (_ & _ & Hr4).
  split.
  - rewrite !run_cons. cbn [run snd fst]. fold w1. rewrite Hr1.
    rewrite <- Hw2'. rewrite Hr2. fold w3. rewrite Hr3, Hr4.
    rewrite Hc1, Hc3. reflexivity.
  - intros Hl Hq. unfold render. rewrite Hc2, Hc1, Hw2, Hw1. cbn.
    rewrite Hl, Hq, Hn. cbn. eauto 10.
Qed.

Lemma stale_next_question_allows_resubmission_witness :
  let w := (session None (take 4 sample_first_question)).1 in
  __nextQuestion (win w) = Some sample_q2
  /\ sessionId (comp w) = Some "s1"%string
  /\ truthy_string "s1" = true
  /\ (run w [EvClickNext; EvClickOption 0; EvClickNext; EvClickOption 1]).2
     = [PostAnswer "s1" (q_id sample_q2) 0 30;
        PostAnswer "s1" (q_id sample_q2) 1 30].
Proof.
  intros w.
  assert (H1 : __nextQuestion (win w) = Some sample_q2)
    by (vm_compute; reflexivity).
  assert (H2 : sessionId (comp w) = Some "s1"%string)
    by (vm_compute; reflexivity).
  assert (H3 : truthy_string "s1" = true) by (vm_compute; reflexivity).
  repeat (split; [assumption|]).
  exact (proj1 (stale_next_question_allows_resubmission
                  None (take 4 sample_first_question) "s1" sample_q2 0 1
                  H1 H2 H3)).
Defined.

Lemma render_QuestionView s g q sc tl d vs dis tb nx :
  render s g = QuestionView q sc tl d vs dis tb nx ->
  loading s = false /\ quizComplete s = false /\ question s = Some q
  /\ vs = imap (fun index _ =>
                  option_variant (isAnswered s) (__lastCorrectIndex g)
                    (selectedAnswer s) (Z.of_nat index)) (q_options q)
  /\ dis = isAnswered s.
Proof.
  unfold render. destruct (loading s); [discriminate|].
  destruct (quizComplete s); [discriminate|].
  destruct (question s); [|discriminate].
  intros [= <- _ _ _ <- <- _ _]. done.
Qed.

(** X8. What the option buttons look like.  There is one button per
    option, disabled exactly when the question is answered.  Until the
    question is answered, or while no correct index has ever been stored,
    every button is plain.  Once it is answered and [window] holds a correct
    index, the button at that index, and no other, is marked correct, and
    the button of the selected option, if it is another one, and no other,
    is marked wrong. *)
Theorem option_highlighting s g q sc tl d vs dis tb nx :
  render s g = QuestionView q sc tl d vs dis tb nx ->
  length vs = length (q_options q)
  /\ dis = isAnswered s
  /\ (isAnswered s = false \/ __lastCorrectIndex g = None ->
      forall v, v ∈ vs -> v = primary)
  /\ (forall ci, isAnswered s = true -> __lastCorrectIndex g = Some ci ->
      forall i, (i < length vs)%nat ->
        (vs !! i = Some success <-> Z.of_nat i = ci)
        /\ (vs !! i = Some warning
            <-> selectedAnswer s = Some (Z.of_nat i) /\ Z.of_nat i <> ci)).
Proof.
  intros (_ & _ & _ & -> & ->)%render_QuestionView.
  rewrite length_imap. split; [done|]. split; [done|]. split.
  - intros Hor v (i & Hi)%list_elem_of_lookup.
    rewrite list_lookup_imap in Hi.
    destruct (q_options q !! i); [|discriminate]. injection Hi as <-.
    unfold option_variant.
    destruct Hor as [-> | ->]; [by destruct (__lastCorrectIndex g)|done].
  - intros ci Ha Hci i Hi. rewrite list_lookup_imap.
    destruct (lookup_lt_is_Some_2 _ _ Hi) as [o ->]. cbn.
    unfold option_variant. rewrite Ha, Hci.
    destruct (Z.eqb_spec (Z.of_nat i) ci) as [He|He].
    + split; [done|]. split; [discriminate|]. by intros [_ ?].
    + split; [split; [by destruct (bool_decide _)|done]|].
      case_bool_decide as Hs.
      * split; [done|]. done.
      * split; [discriminate|]. intros [? _]. congruence.
Qed.

Lemma option_highlighting_witness :
  let w := (session None (take 4 sample_first_question)).1 in
  render (comp w) (win w)
  = QuestionView sample_q1 30 29 2 [primary; primary; success; primary]
      true false NextButton
  /\ length [primary; primary; success; primary]
     = length (q_options sample_q1).
Proof.
  intros w.
  assert (H : render (comp w) (win w)
              = QuestionView sample_q1 30 29 2
                  [primary; primary; success; primary] true false NextButton)
    by (vm_compute; reflexivity).
  split; [exact H|].
  exact (proj1 (option_highlighting _ _ _ _ _ _ _ _ _ _ H)).
Defined.

(** X9. The correct index on [window] is the one of the last response, not
    of the question on display.  After a next-question click, as soon as an
    option is clicked, and before any response for this question, the page
    marks as correct the option at the index revealed for the previous
    question (when the question has an option there). *)
Theorem stale_correct_index_highlighted ud es sid nextQ ci i :
  let w := (session ud es).1 in
  __nextQuestion (win w) = Some nextQ ->
  __lastCorrectIndex (win w) = Some (Z.of_nat ci) ->
  sessionId (comp w) = Some sid -> truthy_string sid = true ->
  loading (comp w) = false -> quizComplete (comp w) = false ->
  (ci < length (q_options nextQ))%nat ->
  let out := run w [EvClickNext; EvClickOption i] in
  out.2 = [PostAnswer sid (q_id nextQ) i 30]
  /\ exists sc tl d vs tb nx,
       render (comp out.1) (win out.1)
       = QuestionView nextQ sc tl d vs true tb nx
       /\ vs !! ci = Some success.
Proof.
  intros w Hn Hci Hsid Htr Hl Hq Hlen out.
  destruct (next_click_step w nextQ Hn) as (Hc1 & Hw1 & Hr1). cbn zeta in Hc1.
  set (w1 := (step w EvClickNext).1) in *.
  assert (Ht1 : submit_target (comp w1) = Some (sid, nextQ)).
  { rewrite Hc1. unfold submit_target. cbn. by rewrite Hsid, Htr. }
  destruct (click_option_step w1 sid nextQ i Ht1) as (Hc2 & Hw2 & Hr2).
  assert (Hout : out = ((step w1 (EvClickOption i)).1,
                        (step w EvClickNext).2 ++ (step w1 (EvClickOption i)).2)).
  { unfold out. rewrite !run_cons. cbn [run fst snd]. by rewrite app_nil_r. }
  rewrite Hout. cbn [fst snd]. split.
  - rewrite Hr1, Hr2, Hc1. reflexivity.
  - unfold render. rewrite Hc2, Hc1, Hw2, Hw1. cbn. rewrite Hl, Hq, Hci.
    do 6 eexists. split; [reflexivity|].
    rewrite list_lookup_imap.
    destruct (lookup_lt_is_Some_2 _ _ Hlen) as [o ->]. cbn.
    by rewrite Z.eqb_refl.
Qed.

Lemma stale_correct_index_highlighted_witness :
  let w := (session None (take 4 sample_first_question)).1 in
  let out := run w [EvClickNext; EvClickOption 0] in
  __nextQuestion (win w) = Some sample_q2
  /\ __lastCorrectIndex (win w) = Some (Z.of_nat 2)
  /\ out.2 = [PostAnswer "s1" (q_id sample_q2) 0 30]
  /\ exists sc tl d vs tb nx,
       render (comp out.1) (win out.1)
       = QuestionView sample_q2 sc tl d vs true tb nx
       /\ vs !! 2%nat = Some success.
Proof.
  intros w out.
  assert (H1 : __nextQuestion (win w) = Some sample_q2)
    by (vm_compute; reflexivity).
  assert (H2 : __lastCorrectIndex (win w) = Some (Z.of_nat 2))
    by (vm_compute; reflexivity).
  assert (H3 : sessionId (comp w) = Some "s1"%string)
    by (vm_compute; reflexivity).
  assert (H4 : truthy_string "s1" = true) by (vm_compute; reflexivity).
  assert (H5 : loading (comp w) = false) by (vm_compute; reflexivity).
  assert (H6 : quizComplete (comp w) = false) by (vm_compute; reflexivity).
  assert (H7 : (2 < length (q_options sample_q2))%nat) by (vm_compute; lia).
  split; [exact H1|]. split; [exact H2|].
  exact (stale_correct_index_highlighted
           None (take 4 sample_first_question) "s1" sample_q2 2 0
           H1 H2 H3 H4 H5 H6 H7).
Defined.

Lemma graded_score data s : score (graded data s) = ar_score data.
Proof.
  unfold graded.
  destruct (difficulty_level data) as [d|]; [destruct (truthy_number d)|];
    by destruct (quiz_complete data).
Qed.

Lemma graded_loading data s : loading (graded data s) = loading s.
Proof.
  unfold graded.
  destruct (difficulty_level data) as [d|]; [destruct (truthy_number d)|];
    by destruct (quiz_complete data).
Qed.

Lemma graded_complete data s :
  quiz_complete data = true -> quizComplete (graded data s) = true.
Proof.
  intros Hq. unfold graded. rewrite Hq.
  by destruct (difficulty_level data) as [d|]; [destruct (truthy_number d)|].
Qed.

(** X10. The completion screen shows the score that is saved: handling an
    answer response with [quiz_complete], the page (unless it is loading)
    switches to the completion screen with the [score] of the response,
    which is also the [final_score] of the one completion request it sends
    in that step. *)
Theorem completion_screen_shows_sent_score ud es n req k data :
  let w := (session ud es).1 in
  inflight w !! n = Some (PendAnswer req k) ->
  quiz_complete data = true ->
  loading (comp w) = false ->
  let out := step w (EvResponse n (AnswerJson (Some data))) in
  render (comp out.1) (win out.1) = CompleteView (ar_score data)
  /\ exists sid, completes out.2 = [PostComplete sid (ar_score data) 1 10].
Proof.
  intros w Hn Hq Hl out. pose proof (session_inv ud es) as HInv.
  fold w in HInv. split.
  - subst out. cbn [step]. rewrite Hn.
    pose proof (Forall_lookup_1 _ _ _ _ (proj2 HInv) Hn) as Hp.
    unfold render.
    inversion Hp; subst; cbn [resume];
      match goal with
      | |- context [handle ?t ?w0] =>
          destruct (handle_frame t w0) as (_&_&_&_&->&_&->&_&->)
      end; cbn [comp win].
    + erewrite exec_handleAnswerSelect_k by done. rewrite Hq. cbn [fst].
      by rewrite graded_loading, Hl, graded_complete, graded_score.
    + erewrite exec_handleTimeout_k by done. rewrite Hq. cbn [fst].
      by rewrite graded_loading, Hl, graded_complete, graded_score.
  - subst out. rewrite step_completes by done. cbn [completion_of].
    rewrite Hn, Hq.
    pose proof (Forall_lookup_1 _ _ _ _ (proj2 HInv) Hn) as Hp.
    inversion Hp; subst; eauto.
Qed.

Lemma completion_screen_shows_sent_score_witness :
  let w := (session None sample_second_question).1 in
  let out := step w (EvResponse 0 (AnswerJson (Some sample_answer2))) in
  (exists req k, inflight w !! 0%nat = Some (PendAnswer req k))
  /\ quiz_complete sample_answer2 = true
  /\ loading (comp w) = false
  /\ render (comp out.1) (win out.1) = CompleteView (ar_score sample_answer2).
Proof.
  intros w out.
  destruct (inflight w !! 0%nat) as [[req k|req k|req k]|] eqn:Hn;
    try (vm_compute in Hn; discriminate Hn).
  assert (Hq : quiz_complete sample_answer2 = true) by reflexivity.
  assert (Hl : loading (comp w) = false) by (vm_compute; reflexivity).
  split; [by exists req, k|]. split; [exact Hq|]. split; [exact Hl|].
  exact (proj1 (completion_screen_shows_sent_score
                  None sample_second_question 0%nat req k sample_answer2
                  Hn Hq Hl)).
Defined.

Lemma imap_unanswered ci sel (l : list string) :
  imap (fun index _ => option_variant false ci sel (Z.of_nat index)) l
  = replicate (length l) primary.
Proof.
  apply list_eq. intros i. rewrite list_lookup_imap.
  destruct (l !! i) as [o|] eqn:Hi; cbn.
  - rewrite lookup_replicate_2 by by eapply lookup_lt_Some.
    unfold option_variant. by destruct ci.
  - symmetry. apply lookup_replicate_None. apply lookup_ge_None in Hi. lia.
Qed.

Lemma start_response_step w n req k data :
  Inv w -> inflight w !! n = Some (PendStart req k) ->
  let out := step w (EvResponse n (StartJson (Some data))) in
  comp out.1 = (exec (start_k (Some data)) (comp w) (win w)).1.1
  /\ win out.1 = win w /\ out.2 = [].
Proof.
  intros HInv Hn out. subst out. cbn [step]. rewrite Hn.
  pose proof (Forall_lookup_1 _ _ _ _ (proj2 HInv) Hn) as Hp.
  inversion Hp; subst. cbn [resume]. rewrite handle_eq. cbn [fst snd].
  assert (He : expired (comp (batched (start_k (Some data)) (settled n w)))
               = false) by done.
  split; [|split].
  - by apply settle_not_expired.
  - match goal with |- context [settle ?a ?b] =>
      by destruct (settle_frame a b) as (-> & _)
    end.
  - by rewrite settle_quiet.
Qed.

(** X11. When the start response arrives (and no earlier quiz was
    completed) the page shows the question of the response with the score
    of the response, 30 seconds, the difficulty level it showed before,
    every option plain and enabled, no timeout banner and no next-question
    control; and it sends nothing. *)
Theorem first_question_view ud es n req k data :
  let w := (session ud es).1 in
  inflight w !! n = Some (PendStart req k) ->
  quizComplete (comp w) = false ->
  let out := step w (EvResponse n (StartJson (Some data))) in
  render (comp out.1) (win out.1)
  = QuestionView (sr_question data) (sr_score data) 30
      (difficultyLevel (comp w))
      (replicate (length (q_options (sr_question data))) primary)
      false false NoNext
  /\ out.2 = [].
Proof.
  intros w Hn Hq out.
  destruct (start_response_step w n req k data (session_inv ud es) Hn)
    as (Hc & Hw & Hr).
  fold out in Hc, Hw, Hr. split; [|done].
  unfold render. rewrite Hc. cbn. rewrite Hq, imap_unanswered. done.
Qed.

Lemma first_question_view_witness :
  let w := (session None []).1 in
  let out := step w (EvResponse 0 (StartJson (Some sample_start))) in
  inflight w !! 0%nat = Some (PendStart (PostStart 10 None) start_k)
  /\ quizComplete (comp w) = false
  /\ render (comp out.1) (win out.1)
     = QuestionView sample_q1 0 30 1 [primary; primary; primary; primary]
         false false NoNext.
Proof.
  intros w out.
  assert (H1 : inflight w !! 0%nat
               = Some (PendStart (PostStart 10 None) start_k)) by reflexivity.
  assert (H2 : quizComplete (comp w) = false) by reflexivity.
  split; [exact H1|]. split; [exact H2|].
  exact (proj1 (first_question_view None [] 0%nat _ _ sample_start H1 H2)).
Defined.

Lemma settle_same prev w :
  deps_eqb prev (comp w) = true -> settle prev w = (w, []).
Proof. intros H. unfold settle. by rewrite H. Qed.

(** X12. A failed start request (rejected [fetch] or unparsable body) only
    takes the loading flag down: no session id, no question and no score
    are set, the window is left alone and nothing is sent; a page that had
    no question shows "No question loaded." (or the completion screen). *)
Theorem failed_start_only_stops_loading ud es n req k :
  let w := (session ud es).1 in
  inflight w !! n = Some (PendStart req k) ->
  let out := step w (EvResponse n (StartJson None)) in
  comp out.1 = apply_state (setLoading false) (comp w)
  /\ win out.1 = win w /\ out.2 = []
  /\ (question (comp w) = None -> quizComplete (comp w) = false ->
      render (comp out.1) (win out.1) = NoQuestionView).
Proof.
  intros w Hn out. pose proof (session_inv ud es) as HInv. fold w in HInv.
  assert (H : comp out.1 = apply_state (setLoading false) (comp w)
              /\ win out.1 = win w /\ out.2 = []).
  { subst out. cbn [step]. rewrite Hn.
    pose proof (Forall_lookup_1 _ _ _ _ (proj2 HInv) Hn) as Hp.
    inversion Hp; subst. cbn [resume]. rewrite handle_eq. cbn [fst snd].
    rewrite settle_same by exact (deps_eqb_refl (comp w)). done. }
  destruct H as (Hc & Hw & Hr). repeat split; try done.
  intros Hq Hqc. unfold render. rewrite Hc. cbn. by rewrite Hqc, Hq.
Qed.

Lemma failed_start_only_stops_loading_witness :
  let w := (session None []).1 in
  let out := step w (EvResponse 0 (StartJson None)) in
  inflight w !! 0%nat = Some (PendStart (PostStart 10 None) start_k)
  /\ out.2 = []
  /\ render (comp out.1) (win out.1) = NoQuestionView.
Proof.
  intros w out.
  assert (H1 : inflight w !! 0%nat
               = Some (PendStart (PostStart 10 None) start_k)) by reflexivity.
  destruct (failed_start_only_stops_loading None [] 0%nat _ _ H1)
    as (_ & _ & Hr & Hv).
  split; [exact H1|]. split; [exact Hr|].
  exact (Hv eq_refl eq_refl).
Defined.

(** X16. The loading line stays until a start request ends: while
    [loading] is set, every event other than the arrival (or failure) of a
    start response leaves it set, and the page shows "Loading quiz...". *)
Theorem loading_until_start_response ud es e :
  let w := (session ud es).1 in
  loading (comp w) = true ->
  is_start_response e = false ->
  loading (comp (step w e).1) = true
  /\ render (comp (step w e).1) (win (step w e).1) = LoadingView.
Proof.
  intros w Hl He. pose proof (session_inv ud es) as HInv. fold w in HInv.
  assert (H : loading (comp (step w e).1) = true).
  { revert He. event_cases w e HInv; cbn [fst is_start_response]; try done;
      intros _;
      match goal with
      | |- context [handle ?t ?w0] =>
          destruct (handle_frame t w0) as (_&_&_&_&_&_&_&_&->)
      end; cbn [comp win]; try done.
    - rewrite exec_handleAnswerSelect.
      by destruct (submit_target (comp w)) as [[sid q]|].
    - unfold nextQuestion. by destruct (__nextQuestion (win w)).
    - erewrite exec_handleAnswerSelect_k by done.
      destruct (quiz_complete data); cbn [fst]; by rewrite graded_loading.
    - erewrite exec_handleTimeout_k by done.
      destruct (quiz_complete data); cbn [fst]; by rewrite graded_loading. }
  split; [done|]. unfold render. by rewrite H.
Qed.

Lemma loading_until_start_response_witness :
  let w := (session None []).1 in
  loading (comp w) = true
  /\ is_start_response EvTick = false
  /\ loading (comp (step w EvTick).1) = true
  /\ render (comp (step w EvTick).1) (win (step w EvTick).1) = LoadingView.
Proof.
  intros w.
  assert (H1 : loading (comp w) = true) by reflexivity.
  assert (H2 : is_start_response EvTick = false) by reflexivity.
  split; [exact H1|]. split; [exact H2|].
  exact (loading_until_start_response None [] EvTick H1 H2).
Defined.

(** X17. After completion the page sends no answer request, whatever
    happens, option clicks apart (which the completion screen does not
    offer: [handleAnswerSelect] itself does not look at [quizComplete]). *)
Theorem no_answer_after_completion ud es e :
  let w := (session ud es).1 in
  quizComplete (comp w) = true ->
  (forall index, e <> EvClickOption index) ->
  answers (step w e).2 = [].
Proof.
  intros w Hq He. pose proof (session_inv ud es) as HInv. fold w in HInv.
  destruct (answers (step w e).2) as [|r rs] eqn:Ha; [done|].
  assert (Hin : r ∈ answers (step w e).2) by (rewrite Ha; left).
  unfold answers in Hin. apply list_elem_of_filter in Hin as [Hr Hin].
  destruct r as [| sid qid a t |]; try discriminate Hr.
  destruct (step_answer_request w e sid qid a t HInv (session_clock ud es) Hin)
    as [_ [(-> & _)|(-> & _)]]; [|by destruct (He a)].
  exfalso. cbn [step] in Hin. destruct HInv as [Ht _].
  unfold timer_ok, ticking in Ht. rewrite Hq, andb_false_r in Ht.
  rewrite Ht in Hin. by apply not_elem_of_nil in Hin.
Qed.

Lemma no_answer_after_completion_witness :
  let w := (session None sample_quiz).1 in
  quizComplete (comp w) = true
  /\ answers (step w EvClickNext).2 = [].
Proof.
  intros w.
  assert (H : quizComplete (comp w) = true) by (vm_compute; reflexivity).
  split; [exact H|].
  exact (no_answer_after_completion None sample_quiz EvClickNext H
           ltac:(discriminate)).
Defined.

End ClientExtra.

(** * Facts about the application shell *)

Module AppFacts.
Import Client App.

Lemma mountApp_ok stored : app_ok (mountApp stored).
Proof. by destruct stored as [[| |v]|]. Qed.

Lemma appStep_ok w e :
  app_ok w -> available (app w) e = true -> app_ok (appStep w e).
Proof.
  intros [Hs Ho] Ha. destruct e as [data|page]; cbn in *.
  - done.
  - unfold handleNavigation.
    destruct (String.eqb page "login"); cbn; [done|].
    rewrite Ha in *. done.
Qed.

Lemma appRun_ok es : forall w w', app_ok w -> appRun w es = Some w' -> app_ok w'.
Proof.
  induction es as [|e es IH]; intros w w' Hw; cbn.
  - by intros [= <-].
  - destruct (available (app w) e) eqn:Ha; [|discriminate].
    apply IH. by apply appStep_ok.
Qed.

(** X13. Whatever the stored item at start and whatever the user then
    does, the application is logged in exactly when [localStorage] holds a
    user record, which is then the user the pages receive; and logged out,
    it has no user, is on page "login" and shows the login page. *)
Theorem login_state_matches_storage stored es w :
  appRun (mountApp stored) es = Some w ->
  stored_user (storage w)
  = (if isLoggedIn (app w) then Some (appUserData (app w)) else None)
  /\ (isLoggedIn (app w) = false ->
      currentPage (app w) = "login"%string /\ appUserData (app w) = None
      /\ renderApp (app w) = LoginPageView).
Proof.
  intros Hr. destruct (appRun_ok es _ _ (mountApp_ok stored) Hr) as [Hs Ho].
  split; [done|]. intros Hl. destruct (Ho Hl) as [? ?].
  repeat split; try done. unfold renderApp. by rewrite Hl.
Qed.

Lemma login_state_matches_storage_witness :
  let u := {| user_id := "u1"; email := "a@b.c"; preferred_genre := "Drama" |} in
  let es := [LoginOk u; Navigate "profile"; Navigate "login"] in
  exists w,
    appRun (mountApp (Some Unparsable)) es = Some w
    /\ stored_user (storage w) = None /\ isLoggedIn (app w) = false.
Proof.
  intros u es. eexists. split; [reflexivity|].
  assert (H : appRun (mountApp (Some Unparsable)) es
              = Some (appStep (appStep (appStep (mountApp (Some Unparsable))
                                          (LoginOk u)) (Navigate "profile"))
                        (Navigate "login"))) by reflexivity.
  split; [|reflexivity].
  exact (proj1 (login_state_matches_storage _ _ _ H)).
Defined.

(** X14. Reloading the page keeps the login: a fresh first render over the
    [localStorage] a run has left is logged in exactly when the run ended
    logged in, with the same user; it starts on the quiz page when logged
    in, whatever page the run was on. *)
Theorem reload_keeps_login stored es w :
  appRun (mountApp stored) es = Some w ->
  let w' := mountApp (storage w) in
  isLoggedIn (app w') = isLoggedIn (app w)
  /\ appUserData (app w') = appUserData (app w)
  /\ currentPage (app w')
     = (if isLoggedIn (app w) then "quiz" else "login")%string.
Proof.
  intros Hr w'. destruct (appRun_ok es _ _ (mountApp_ok stored) Hr) as [Hs Ho].
  subst w'. destruct (isLoggedIn (app w)) eqn:Hl.
  - destruct (storage w) as [[| |v]|]; try discriminate Hs.
    injection Hs as ->. done.
  - destruct (Ho eq_refl) as [_ ->].
    by destruct (storage w) as [[| |v]|].
Qed.

Lemma reload_keeps_login_witness :
  let u := {| user_id := "u1"; email := "a@b.c"; preferred_genre := "Drama" |} in
  let es := [LoginOk u; Navigate "profile"] in
  let w := appStep (appStep (mountApp None) (LoginOk u)) (Navigate "profile") in
  appRun (mountApp None) es = Some w
  /\ isLoggedIn (app (mountApp (storage w))) = isLoggedIn (app w)
  /\ appUserData (app (mountApp (storage w))) = Some u
  /\ currentPage (app (mountApp (storage w))) = "quiz"%string.
Proof.
  intros u es w.
  assert (H : appRun (mountApp None) es = Some w) by reflexivity.
  split; [exact H|].
  exact (reload_keeps_login None es w H).
Defined.

(** X15. Every achievement of the profile page is consistent: its progress
    never exceeds its total, and it is unlocked exactly when the progress
    bar is full. *)
Theorem achievements_consistent profile :
  Forall (fun a => progress a <= total a
                   /\ (unlocked a = true <-> progress a = total a))
         (generateAchievements profile).
Proof.
  unfold generateAchievements. repeat constructor; cbn; try lia;
    rewrite ?Z.leb_le; lia.
Qed.

End AppFacts.
